(** * WebViewExporter: the HTML export pipeline of vnote

    A shallow embedding of [WebViewExporter] (webviewexporter.cpp): the
    render-state bitset and its readiness test, the two polling loops of
    [doExport] and [doExportHtml], the HTML file writer and the three
    regular-expression scans that rewrite resource references.

    Qt's [int] is modelled by [Z], [QString] by a list of characters,
    the event loop entered by [Utils::sleepWait] by a schedule of event
    batches, and the services the file calls but does not define
    (WebUtils, HtmlTemplateHelper, FileUtils, PathUtils, QDir, QUrl) by
    the fields of a type class. *)

From Stdlib Require Import ZArith List Ascii String Bool Lia.
Import ListNotations.
Open Scope Z_scope.

(* ================================================================== *)
(** * Part I: definitions *)
(* ================================================================== *)

(** ** QString *)

Definition QString : Type := list ascii.

(** A literal without a double quote in it. *)
Definition qs (s : string) : QString := list_ascii_of_string s.

(** The double quote character, U+0022. *)
Definition dquote : ascii := ascii_of_nat 34.

Definition size (s : QString) : Z := Z.of_nat (List.length s).

Definition isEmpty (s : QString) : bool :=
  match s with [] => true | _ :: _ => false end.

(** [QString::mid(position)] with the default length -1: the null string
    when [position] is past the end, the whole string when it is
    negative, the tail from [position] otherwise. *)
Definition mid (s : QString) (position : Z) : QString :=
  if position >? size s then []
  else if position <? 0 then s
  else skipn (Z.to_nat position) s.

(** [QString::replace(position, n, after)]: nothing happens when
    [position] is outside the string, and [n] is cut at its end
    ([skipn] past the end is empty). *)
Definition replace (s : QString) (position n : Z) (after : QString) : QString :=
  if (position <? 0) || (position >? size s) then s
  else firstn (Z.to_nat position) s ++ after
       ++ skipn (Z.to_nat position + Z.to_nat n) s.

(** Index of the last [ch] of [l], -1 when there is none. *)
Fixpoint lastIdx (ch : ascii) (l : QString) : Z :=
  match l with
  | [] => -1
  | c :: l' =>
      let r := lastIdx ch l' in
      if 0 <=? r then r + 1
      else if Ascii.eqb c ch then 0 else -1
  end.

(** [QString::lastIndexOf(ch, from)]: a negative [from] counts from the
    end (-1 is the last character); the search runs backwards from
    [from]; -1 when [from] is outside the string or nothing is found. *)
Definition lastIndexOf (s : QString) (ch : ascii) (from : Z) : Z :=
  let from' := if from <? 0 then from + size s else from in
  if (from' <? 0) || (size s <=? from') then -1
  else lastIdx ch (firstn (Z.to_nat from' + 1) s).

(** Substring test, for statements about what a string contains. *)
Fixpoint startsWith (p s : QString) : bool :=
  match p, s with
  | [], _ => true
  | _ :: _, [] => false
  | a :: p', b :: s' => Ascii.eqb a b && startsWith p' s'
  end.

Fixpoint contains (s p : QString) : bool :=
  startsWith p s || match s with [] => false | _ :: s' => contains s' p end.

(** ** The render-state bitset *)

(** Modelled from the spec: the enum [WebViewState] is declared in
    webviewexporter.h, which is not among the sources.  The spec calls it
    a bitset of the independent facts LoadFinished, WorkFinished and
    Failed that is reset to empty ([Started]) when an export starts.  The
    three flags are single bits at positions kept abstract here; they are
    only required to be distinct. *)
Class WebViewState : Type := {
  loadBit : Z;
  workBit : Z;
  failBit : Z;
  loadBit_nonneg : 0 <= loadBit;
  workBit_nonneg : 0 <= workBit;
  failBit_nonneg : 0 <= failBit;
  load_work_distinct : loadBit <> workBit;
  load_fail_distinct : loadBit <> failBit;
  work_fail_distinct : workBit <> failBit
}.

Section RenderState.
Context `{WebViewState}.

Definition Started : Z := 0.
Definition LoadFinished : Z := Z.shiftl 1 loadBit.
Definition WorkFinished : Z := Z.shiftl 1 workBit.
Definition Failed : Z := Z.shiftl 1 failBit.

(** [flags & flag] converted to [bool], as [QFlags] does it. *)
Definition testFlag (states flag : Z) : bool := negb (Z.land states flag =? 0).

(** The values of the bitset: no bit besides the three flags. *)
Definition isRenderState (states : Z) : Prop :=
  Z.land states (Z.lor LoadFinished (Z.lor WorkFinished Failed)) = states.

End RenderState.

(** The flag values 0x1, 0x2, 0x4 of an enum counted from the first bit. *)
Definition qtWebViewState : WebViewState.
Proof.
  refine {| loadBit := 0; workBit := 1; failBit := 2 |}; lia.
Defined.

(** ** Regular expressions *)

(** A character is a QChar of the Latin-1 range.  [isWordChar] is
    QRegExp's word character: [QChar::isLetterOrNumber()], a mark or the
    underscore.  Latin-1 has no marks; its letters and numbers beyond
    ASCII are U+00AA, U+00B2, U+00B3, U+00B5, U+00B9, U+00BA,
    U+00BC..U+00BE and U+00C0..U+00FF without the two signs U+00D7 and
    U+00F7. *)
Definition isWordChar (c : ascii) : bool :=
  let n := nat_of_ascii c in
  (((48 <=? n) && (n <=? 57)) || ((65 <=? n) && (n <=? 90))
   || ((97 <=? n) && (n <=? 122)) || (n =? 95)
   || (n =? 170) || (n =? 178) || (n =? 179) || (n =? 181) || (n =? 185)
   || (n =? 186) || ((188 <=? n) && (n <=? 190))
   || ((192 <=? n) && negb (n =? 215) && negb (n =? 247)))%nat.

(** What a QRegExp object holds after a search: the length of the match
    and the captured texts, [cap 0] being the whole match. *)
Record RegMatch : Type := {
  matchedLength : Z;
  capturedTexts : list QString
}.

Definition cap (m : RegMatch) (n : nat) : QString := nth n (capturedTexts m) [].

Definition noMatch : RegMatch := {| matchedLength := -1; capturedTexts := [] |}.

(** A pattern is given by its matcher at one position: the character
    before the position (for the assertion \b) and the text from the
    position on. *)
Definition QRegExp : Type := option ascii -> QString -> option RegMatch.

Fixpoint stripPrefix (p s : QString) : option QString :=
  match p, s with
  | [], _ => Some s
  | _ :: _, [] => None
  | a :: p', b :: s' => if Ascii.eqb a b then stripPrefix p' s' else None
  end.

(** The longest prefix of characters satisfying [f], and the rest. *)
Fixpoint span (f : ascii -> bool) (s : QString) : QString * QString :=
  match s with
  | [] => ([], [])
  | c :: s' =>
      if f c then let (a, b) := span f s' in (c :: a, b) else ([], s)
  end.

(** The assertion \b: exactly one of the two neighbours is a word
    character, the ends of the string counting as none. *)
Definition wordBoundary (prev : option ascii) (s : QString) : bool :=
  xorb (match prev with Some c => isWordChar c | None => false end)
       (match s with c :: _ => isWordChar c | [] => false end).

(** The alternation (file|qrc). *)
Definition fileOrQrc (s : QString) : option (QString * QString) :=
  match stripPrefix (qs "file") s with
  | Some r => Some (qs "file", r)
  | None =>
      match stripPrefix (qs "qrc") s with
      | Some r => Some (qs "qrc", r)
      | None => None
      end
  end.

Definition notQuoteParen (c : ascii) : bool :=
  negb (Ascii.eqb c dquote || Ascii.eqb c ")"%char).

(** The pattern of [embedStyleResources],
    \burl\(<q>((file|qrc):[^<q>\)]+)<q>\); where <q> is the double
    quote.  The class excludes the quote, so the greedy run ends at the
    first quote or parenthesis and no shorter run can be followed by the
    closing quote: a position has at most one match. *)
Definition styleUrlRegExp : QRegExp := fun prev s =>
  if wordBoundary prev s then
    match stripPrefix (qs "url(" ++ [dquote]) s with
    | None => None
    | Some r =>
        match fileOrQrc r with
        | None => None
        | Some (scheme, r1) =>
            match stripPrefix (qs ":") r1 with
            | None => None
            | Some r2 =>
                let (body, r3) := span notQuoteParen r2 in
                if isEmpty body then None
                else
                  match stripPrefix (dquote :: qs ");") r3 with
                  | None => None
                  | Some _ =>
                      let url := scheme ++ qs ":" ++ body in
                      let whole := qs "url(" ++ [dquote] ++ url ++ dquote :: qs ");" in
                      Some {| matchedLength := size whole;
                              capturedTexts := [whole; url; scheme] |}
                  end
            end
        end
    end
  else None.

Definition notGt (c : ascii) : bool := negb (Ascii.eqb c ">"%char).
Definition notQuote (c : ascii) : bool := negb (Ascii.eqb c dquote).

(** The part of [c_imgRegExp] after its first group: the literal src=
    and a quote, one or more characters other than the quote (group 2),
    a quote, any characters other than > (group 3), and >.  Both runs
    are forced: the source value ends at the first quote, the attributes
    after it at the first >. *)
Definition imgSrcTail (s : QString) : option (QString * QString) :=
  match stripPrefix (qs "src=" ++ [dquote]) s with
  | None => None
  | Some r =>
      let (src, r1) := span notQuote r in
      if isEmpty src then None
      else
        match stripPrefix [dquote] r1 with
        | None => None
        | Some r2 =>
            let (post, r3) := span notGt r2 in
            match stripPrefix (qs ">") r3 with
            | None => None
            | Some _ => Some (src, post)
            end
        end
  end.

(** The first group, any characters other than >, is greedy: it is the
    longest such run after which the rest of the pattern matches.  [pre]
    is the run consumed so far, reversed. *)
Fixpoint imgAttrs (pre : QString) (s : QString)
  : option (QString * QString * QString) :=
  let here :=
    match imgSrcTail s with
    | Some (src, post) => Some (rev pre, src, post)
    | None => None
    end in
  match s with
  | [] => here
  | c :: s' =>
      if notGt c then
        match imgAttrs (c :: pre) s' with
        | Some m => Some m
        | None => here
        end
      else here
  end.

(** [c_imgRegExp]: the literal <img and a space, group 1, and the tail
    above with groups 2 and 3. *)
Definition c_imgRegExp : QRegExp := fun _ s =>
  match stripPrefix (qs "<img ") s with
  | None => None
  | Some r =>
      match imgAttrs [] r with
      | None => None
      | Some (pre, src, post) =>
          let whole := qs "<img " ++ pre ++ qs "src=" ++ [dquote] ++ src
                       ++ [dquote] ++ post ++ qs ">" in
          Some {| matchedLength := size whole;
                  capturedTexts := [whole; pre; src; post] |}
      end
  end.

(** The leftmost position from [i] on at which [rx] matches, with the
    match; -1 when there is none. *)
Fixpoint searchFrom (rx : QRegExp) (prev : option ascii) (s : QString) (i : Z)
  : Z * RegMatch :=
  match rx prev s with
  | Some m => (i, m)
  | None =>
      match s with
      | [] => (-1, noMatch)
      | c :: s' => searchFrom rx (Some c) s' (i + 1)
      end
  end.

Definition charBefore (s : QString) (i : Z) : option ascii :=
  if i <=? 0 then None else nth_error s (Z.to_nat (i - 1)).

(** [QString::indexOf(QRegExp &, from)]: the index of the first match at
    or after [from], and the state it leaves in the QRegExp object.  A
    negative [from] counts from the end; outside the string nothing
    matches. *)
Definition indexOf (s : QString) (rx : QRegExp) (from : Z) : Z * RegMatch :=
  let from' := if from <? 0 then from + size s else from in
  if (from' <? 0) || (from' >? size s) then (-1, noMatch)
  else searchFrom rx (charBefore s from') (skipn (Z.to_nat from') s) from'.

(** ** The services the exporter calls *)

(** A QUrl is kept as its text. *)
Definition QUrl : Type := QString.

(** What webviewexporter.cpp calls and does not define.  [World] is the
    state those calls read and change (the file system, mostly).
    - WebUtils: [toDataUri url flag], empty when the resource cannot be
      converted; [copyResource url folder], the path of the copy, empty
      when copying failed.
    - QUrl: [resolved base relative].
    - HtmlTemplateHelper: the four fill functions, template first.
    - QFileInfo, PathUtils, ConfigMgr: names and paths.
    - FileUtils and QDir: [writeFile] with whether the write succeeded;
      [dirExists], [dirIsEmpty]; [rmdirIn folder name] for [cdUp]
      followed by [rmdir name]. *)
Class Services : Type := {
  World : Type;
  toDataUri : QUrl -> bool -> World -> QString;
  copyResource : QUrl -> QString -> World -> QString * World;
  resolved : QUrl -> QString -> QUrl;
  pathToUrl : QString -> QUrl;
  fillTitle : QString -> QString -> QString;
  fillStyleContent : QString -> QString -> QString;
  fillHeadContent : QString -> QString -> QString;
  fillBodyContent : QString -> QString -> QString;
  completeBaseName : QString -> QString;
  parentDirPath : QString -> QString;
  concatenateFilePath : QString -> QString -> QString;
  c_appName : QString;
  writeFile : QString -> QString -> World -> bool * World;
  dirExists : QString -> World -> bool;
  dirIsEmpty : QString -> World -> bool;
  rmdirIn : QString -> QString -> World -> World
}.

(** ** while loops *)

(** How a run of a loop on a budget of iterations ends. *)
Inductive LoopResult (S : Type) : Type :=
| Finished (s : S)
| OutOfFuel (s : S).
Arguments Finished {S} s.
Arguments OutOfFuel {S} s.

(** A loop body maps the loop's variables to their next values, or to
    [None] when the loop is left (the condition fails or [break]). *)
Fixpoint whileLoop {S : Type} (body : S -> option S) (fuel : nat) (s : S)
  : LoopResult S :=
  match fuel with
  | O => OutOfFuel s
  | Datatypes.S fuel' =>
      match body s with
      | None => Finished s
      | Some s' => whileLoop body fuel' s'
      end
  end.

Definition loopState {S : Type} (r : LoopResult S) : S :=
  match r with Finished s => s | OutOfFuel s => s end.

(** The variables of a scan: the string being rewritten, the cursor and
    the result flag. *)
Record Scan : Type := {
  p_html : QString;
  pos : Z;
  altered : bool
}.

(** [bool altered = false; int pos = 0;] *)
Definition scanStart (html : QString) : Scan :=
  {| p_html := html; pos := 0; altered := false |}.

(** Iterations that suffice for a scan of [st]: one more than the
    characters from the cursor to the end. *)
Definition scanFuel (st : Scan) : nat :=
  Datatypes.S (Z.to_nat (size (p_html st) - pos st)).

(** [getResourceRelativePath]: the text from the last but one slash on,
    after a dot.  [Q_ASSERT] expands to nothing in a release build, which
    the model follows; the asserted condition is
    [getResourceRelativePath_asserts]. *)
Definition getResourceRelativePath (p_file : QString) : QString :=
  let idx := lastIndexOf p_file "/"%char (-1) in
  let idx2 := lastIndexOf p_file "/"%char (idx - 1) in
  qs "." ++ mid p_file idx2.

Definition getResourceRelativePath_asserts (p_file : QString) : bool :=
  let idx := lastIndexOf p_file "/"%char (-1) in
  let idx2 := lastIndexOf p_file "/"%char (idx - 1) in
  (0 <? idx) && (idx2 <? idx).

Section Exporter.
Context `{Services}.

(** *** embedStyleResources *)

(** One iteration of the loop of [embedStyleResources]. *)
Definition embedStyleIter (w : World) (st : Scan) : option Scan :=
  if pos st <? size (p_html st) then
    let (idx, reg) := indexOf (p_html st) styleUrlRegExp (pos st) in
    if idx =? -1 then None
    else
      let dataURI := toDataUri (cap reg 1) false w in
      if isEmpty dataURI then
        Some {| p_html := p_html st;
                pos := idx + matchedLength reg;
                altered := altered st |}
      else
        let newUrl := qs "url('" ++ dataURI ++ qs "');" in
        Some {| p_html := replace (p_html st) idx (matchedLength reg) newUrl;
                pos := idx + size newUrl;
                altered := true |}
  else None.

(** [embedStyleResources]: the rewritten string and the returned flag. *)
Definition embedStyleResources (html : QString) (w : World) : QString * bool :=
  let st := loopState (whileLoop (embedStyleIter w)
                         (scanFuel (scanStart html))
                         (scanStart html)) in
  (p_html st, altered st).

(** *** embedBodyResources *)

Definition embedBodyIter (p_baseUrl : QUrl) (w : World) (st : Scan)
  : option Scan :=
  if pos st <? size (p_html st) then
    let (idx, reg) := indexOf (p_html st) c_imgRegExp (pos st) in
    if idx =? -1 then None
    else if isEmpty (cap reg 2) then
      Some {| p_html := p_html st;
              pos := idx + matchedLength reg;
              altered := altered st |}
    else
      let srcUrl := resolved p_baseUrl (cap reg 2) in
      let dataURI := toDataUri srcUrl true w in
      if isEmpty dataURI then
        Some {| p_html := p_html st;
                pos := idx + matchedLength reg;
                altered := altered st |}
      else
        let newUrl := qs "<img " ++ cap reg 1 ++ qs "src='" ++ dataURI
                      ++ qs "'" ++ cap reg 3 ++ qs ">" in
        Some {| p_html := replace (p_html st) idx (matchedLength reg) newUrl;
                pos := idx + size newUrl;
                altered := true |}
  else None.

Definition embedBodyResources (p_baseUrl : QUrl) (html : QString) (w : World)
  : QString * bool :=
  if isEmpty p_baseUrl then (html, false)
  else
    let st := loopState (whileLoop (embedBodyIter p_baseUrl w)
                           (scanFuel (scanStart html))
                           (scanStart html)) in
    (p_html st, altered st).

(** *** fixBodyResources *)

(** [copyResource] changes the world, which the loop carries along. *)
Definition fixBodyIter (p_baseUrl : QUrl) (p_folder : QString)
  (sw : Scan * World) : option (Scan * World) :=
  let (st, w) := sw in
  if pos st <? size (p_html st) then
    let (idx, reg) := indexOf (p_html st) c_imgRegExp (pos st) in
    if idx =? -1 then None
    else if isEmpty (cap reg 2) then
      Some ({| p_html := p_html st;
               pos := idx + matchedLength reg;
               altered := altered st |}, w)
    else
      let srcUrl := resolved p_baseUrl (cap reg 2) in
      let (targetFile, w') := copyResource srcUrl p_folder w in
      if isEmpty targetFile then
        Some ({| p_html := p_html st;
                 pos := idx + matchedLength reg;
                 altered := altered st |}, w')
      else
        let newUrl := qs "<img " ++ cap reg 1 ++ qs "src=" ++ [dquote]
                      ++ getResourceRelativePath targetFile
                      ++ [dquote] ++ cap reg 3 ++ qs ">" in
        Some ({| p_html := replace (p_html st) idx (matchedLength reg) newUrl;
                 pos := idx + size newUrl;
                 altered := true |}, w')
  else None.

Definition fixBodyResources (p_baseUrl : QUrl) (p_folder : QString)
  (html : QString) (w : World) : QString * bool * World :=
  if isEmpty p_baseUrl then (html, false, w)
  else
    let sw := loopState (whileLoop (fixBodyIter p_baseUrl p_folder)
                           (scanFuel (scanStart html))
                           (scanStart html, w)) in
    (p_html (fst sw), altered (fst sw), snd sw).

End Exporter.

(** ** The exporter object *)

Record ExportHtmlOption : Type := {
  m_embedStyles : bool;
  m_completePage : bool;
  m_embedImages : bool;
  m_useMimeHtmlFormat : bool;
  m_addOutlinePanel : bool
}.

(** The switch of [doExport] has a case for HTML and a default. *)
Inductive ExportFormat : Type := HTML | OtherFormat.

(** [m_htmlOption] is a pointer: [None] is the null pointer. *)
Record ExportOption : Type := {
  m_targetFormat : ExportFormat;
  m_htmlOption : option ExportHtmlOption
}.

(** What [doExport] asks of its [File]. *)
Record File : Type := {
  isMarkdown : bool;
  getContentPath : QString;
  getFilePath : QString;
  read : QString
}.

(** What the lambda of [doExportHtml] captures besides [state]. *)
Record HtmlJob : Type := {
  job_option : ExportHtmlOption;
  job_outputFile : QString;
  job_baseUrl : QUrl
}.

(** Calls worth observing: requests sent to the viewer and entries into
    the two export routines. *)
Inductive Call : Type :=
| CallSetHtml (template : QString) (baseUrl : QUrl)
| CallSetText (text : QString)
| CallSaveContent
| CallDoExportHtml
| CallWriteHtmlFile (file : QString).

(** What the event loop delivers while [Utils::sleepWait] runs: the two
    signals connected in [prepare], a call of [stop] by the user
    interface, and the signal [contentReady] with its three fragments. *)
Inductive Event : Type :=
| EvLoadFinished
| EvWorkFinished
| EvStop
| EvContentReady (headContent styleContent bodyContent : QString).

(** One batch of events per call of [sleepWait]; when the schedule is
    used up nothing is delivered any more. *)
Definition Schedule : Type := list (list Event).

Section Orchestrator.
Context `{WebViewState} `{Services}.

(** The members of [WebViewExporter], the local [state] of
    [doExportHtml] that its lambda captures by reference, the connection
    of [contentReady], and the world and the calls observed so far.  At
    most one connection is modelled: an export starts with none (a
    connection left behind by a cancelled export would refer to a dead
    local variable). *)
Record Exporter : Type := {
  m_askedToStop : bool;
  m_exportOngoing : bool;
  m_webViewStates : Z;
  m_htmlTemplate : QString;
  m_exportHtmlTemplate : QString;
  state : Z;
  contentReadyConnection : option HtmlJob;
  world : World;
  calls : list Call
}.

Definition set_askedToStop (b : bool) (e : Exporter) : Exporter :=
  {| m_askedToStop := b; m_exportOngoing := m_exportOngoing e;
     m_webViewStates := m_webViewStates e; m_htmlTemplate := m_htmlTemplate e;
     m_exportHtmlTemplate := m_exportHtmlTemplate e; state := state e;
     contentReadyConnection := contentReadyConnection e;
     world := world e; calls := calls e |}.

Definition set_exportOngoing (b : bool) (e : Exporter) : Exporter :=
  {| m_askedToStop := m_askedToStop e; m_exportOngoing := b;
     m_webViewStates := m_webViewStates e; m_htmlTemplate := m_htmlTemplate e;
     m_exportHtmlTemplate := m_exportHtmlTemplate e; state := state e;
     contentReadyConnection := contentReadyConnection e;
     world := world e; calls := calls e |}.

Definition set_webViewStates (v : Z) (e : Exporter) : Exporter :=
  {| m_askedToStop := m_askedToStop e; m_exportOngoing := m_exportOngoing e;
     m_webViewStates := v; m_htmlTemplate := m_htmlTemplate e;
     m_exportHtmlTemplate := m_exportHtmlTemplate e; state := state e;
     contentReadyConnection := contentReadyConnection e;
     world := world e; calls := calls e |}.

Definition set_state (v : Z) (e : Exporter) : Exporter :=
  {| m_askedToStop := m_askedToStop e; m_exportOngoing := m_exportOngoing e;
     m_webViewStates := m_webViewStates e; m_htmlTemplate := m_htmlTemplate e;
     m_exportHtmlTemplate := m_exportHtmlTemplate e; state := v;
     contentReadyConnection := contentReadyConnection e;
     world := world e; calls := calls e |}.

Definition set_connection (c : option HtmlJob) (e : Exporter) : Exporter :=
  {| m_askedToStop := m_askedToStop e; m_exportOngoing := m_exportOngoing e;
     m_webViewStates := m_webViewStates e; m_htmlTemplate := m_htmlTemplate e;
     m_exportHtmlTemplate := m_exportHtmlTemplate e; state := state e;
     contentReadyConnection := c;
     world := world e; calls := calls e |}.

Definition set_world (w : World) (e : Exporter) : Exporter :=
  {| m_askedToStop := m_askedToStop e; m_exportOngoing := m_exportOngoing e;
     m_webViewStates := m_webViewStates e; m_htmlTemplate := m_htmlTemplate e;
     m_exportHtmlTemplate := m_exportHtmlTemplate e; state := state e;
     contentReadyConnection := contentReadyConnection e;
     world := w; calls := calls e |}.

Definition record (c : Call) (e : Exporter) : Exporter :=
  {| m_askedToStop := m_askedToStop e; m_exportOngoing := m_exportOngoing e;
     m_webViewStates := m_webViewStates e; m_htmlTemplate := m_htmlTemplate e;
     m_exportHtmlTemplate := m_exportHtmlTemplate e; state := state e;
     contentReadyConnection := contentReadyConnection e;
     world := world e; calls := calls e ++ [c] |}.

(** *** The render state *)

Definition isWebViewReady (e : Exporter) : bool :=
  m_webViewStates e =? Z.lor LoadFinished WorkFinished.

Definition isWebViewFailed (e : Exporter) : bool :=
  testFlag (m_webViewStates e) Failed.

(** The two lambdas connected in [prepare]. *)
Definition onLoadFinished (e : Exporter) : Exporter :=
  set_webViewStates (Z.lor (m_webViewStates e) LoadFinished) e.

Definition onWorkFinished (e : Exporter) : Exporter :=
  set_webViewStates (Z.lor (m_webViewStates e) WorkFinished) e.

Definition stop (e : Exporter) : Exporter := set_askedToStop true e.

(** *** writeHtmlFile *)

(** The document [writeHtmlFile] assembles, and the world after the
    resources were copied (only [fixBodyResources] changes it). *)
Definition assembleHtml (e : Exporter) (title : QString) (resourceFolder : QString)
  (p_baseUrl : QUrl) (p_headContent p_styleContent p_bodyContent : QString)
  (p_embedStyles p_completePage p_embedImages : bool) : QString * World :=
  let htmlTemplate := m_exportHtmlTemplate e in
  let htmlTemplate := fillTitle htmlTemplate title in
  let htmlTemplate :=
    if negb (isEmpty p_styleContent) && p_embedStyles then
      fillStyleContent htmlTemplate
        (fst (embedStyleResources p_styleContent (world e)))
    else htmlTemplate in
  let htmlTemplate :=
    if negb (isEmpty p_headContent) then fillHeadContent htmlTemplate p_headContent
    else htmlTemplate in
  if p_completePage then
    if p_embedImages then
      let bodyContent := fst (embedBodyResources p_baseUrl p_bodyContent (world e)) in
      (fillBodyContent htmlTemplate bodyContent, world e)
    else
      let '(bodyContent, _, w) :=
        fixBodyResources p_baseUrl resourceFolder p_bodyContent (world e) in
      (fillBodyContent htmlTemplate bodyContent, w)
  else (fillBodyContent htmlTemplate p_bodyContent, world e).

Definition writeHtmlFile (p_file : QString) (p_baseUrl : QUrl)
  (p_headContent p_styleContent p_bodyContent : QString)
  (p_embedStyles p_completePage p_embedImages : bool) (e : Exporter)
  : bool * Exporter :=
  let e := record (CallWriteHtmlFile p_file) e in
  let baseName := completeBaseName p_file in
  let title := baseName ++ qs " - " ++ c_appName in
  let resourceFolderName := baseName ++ qs "_files" in
  let resourceFolder :=
    concatenateFilePath (parentDirPath p_file) resourceFolderName in
  let (htmlTemplate, w) :=
    assembleHtml e title resourceFolder p_baseUrl p_headContent p_styleContent
      p_bodyContent p_embedStyles p_completePage p_embedImages in
  let w := snd (writeFile p_file htmlTemplate w) in
  let w :=
    if dirExists resourceFolder w && dirIsEmpty resourceFolder w
    then rmdirIn resourceFolder resourceFolderName w
    else w in
  (true, set_world w e).

(** *** Events *)

(** The lambda connected to [contentReady] by [doExportHtml]. *)
Definition onContentReady (job : HtmlJob)
  (p_headContent p_styleContent p_bodyContent : QString) (e : Exporter)
  : Exporter :=
  let e := set_connection None e in
  if isEmpty p_bodyContent || m_askedToStop e then set_state (-1) e
  else
    let (ok, e') :=
      writeHtmlFile (job_outputFile job) (job_baseUrl job)
        p_headContent p_styleContent p_bodyContent
        (m_embedStyles (job_option job)) (m_completePage (job_option job))
        (m_embedImages (job_option job)) e in
    if negb ok then set_state (-1) e' else set_state 1 e'.

Definition deliver (e : Exporter) (ev : Event) : Exporter :=
  match ev with
  | EvLoadFinished => onLoadFinished e
  | EvWorkFinished => onWorkFinished e
  | EvStop => stop e
  | EvContentReady h s b =>
      match contentReadyConnection e with
      | Some job => onContentReady job h s b e
      | None => e
      end
  end.

Definition deliverAll (batch : list Event) (e : Exporter) : Exporter :=
  fold_left deliver batch e.

(** The bits an event ORs into the render state. *)
Definition signalBits (ev : Event) : Z :=
  match ev with
  | EvLoadFinished => LoadFinished
  | EvWorkFinished => WorkFinished
  | EvStop | EvContentReady _ _ _ => 0
  end.

(** [Utils::sleepWait]: the next batch is delivered. *)
Definition sleepWait (sched : Schedule) (e : Exporter) : Exporter * Schedule :=
  match sched with
  | [] => (e, [])
  | batch :: rest => (deliverAll batch e, rest)
  end.

(** *** doExportHtml *)

(** How a call ends: it returns a value, leaving an exporter and the
    rest of the schedule; or it waits in a loop that no event will end
    any more; or it dereferences a null pointer. *)
Inductive Outcome : Type :=
| Returned (ret : bool) (e : Exporter) (rest : Schedule)
| Blocked
| NullPointer.

(** [while (state == 0) { sleepWait(100); if (m_askedToStop) break; }]
    On a used-up schedule every further wait delivers nothing
    ([sleepWait [] e = (e, [])]): the loop is left after one such wait
    when [stop] is pending, and never otherwise. *)
Fixpoint contentLoop (sched : Schedule) (e : Exporter) : option (Exporter * Schedule) :=
  if state e =? 0 then
    match sched with
    | [] => if m_askedToStop e then Some (e, []) else None
    | batch :: rest =>
        let e' := deliverAll batch e in
        if m_askedToStop e' then Some (e', rest) else contentLoop rest e'
    end
  else Some (e, sched).

Definition doExportHtml (p_htmlOption : ExportHtmlOption) (p_outputFile : QString)
  (p_baseUrl : QUrl) (sched : Schedule) (e : Exporter) : Outcome :=
  let e := record CallDoExportHtml e in
  let e := set_state 0 e in
  let e := set_connection
             (Some {| job_option := p_htmlOption;
                      job_outputFile := p_outputFile;
                      job_baseUrl := p_baseUrl |}) e in
  let e := record CallSaveContent e in
  match contentLoop sched e with
  | None => Blocked
  | Some (e', rest) => Returned (state e' =? 1) e' rest
  end.

(** *** doExport *)

(** How the readiness loop is left. *)
Inductive Readiness : Type :=
| Ready (e : Exporter) (rest : Schedule)
| ExitExport (e : Exporter) (rest : Schedule)
| NeverReady.

(** [while (!isWebViewReady()) { sleepWait(100); ... goto exit_export; }]
    On a used-up schedule every further wait delivers nothing: the loop
    is left after one such wait when [stop] is pending or the view has
    failed, and never otherwise. *)
Fixpoint readinessLoop (sched : Schedule) (e : Exporter) : Readiness :=
  if isWebViewReady e then Ready e sched
  else
    match sched with
    | [] =>
        if m_askedToStop e then ExitExport e []
        else if isWebViewFailed e then ExitExport e []
        else NeverReady
    | batch :: rest =>
        let e' := deliverAll batch e in
        if m_askedToStop e' then ExitExport e' rest
        else if isWebViewFailed e' then ExitExport e' rest
        else readinessLoop rest e'
    end.

(** [doExport].  The assertions are no-ops (release build); with a null
    [m_htmlOption] the HTML case dereferences it. *)
Definition doExport (p_option : ExportOption) (p_file : File)
  (p_outputFile : QString) (sched : Schedule) (e : Exporter) : Outcome :=
  let e := set_askedToStop false e in
  let e := set_exportOngoing true e in
  let e := set_webViewStates Started e in
  let baseUrl := pathToUrl (getContentPath p_file) in
  let e := record (CallSetHtml (m_htmlTemplate e) baseUrl) e in
  let e := record (CallSetText (read p_file)) e in
  match readinessLoop sched e with
  | NeverReady => Blocked
  | ExitExport e' rest => Returned false (set_exportOngoing false e') rest
  | Ready e' rest =>
      let (e'', rest') := sleepWait rest e' in
      match m_targetFormat p_option with
      | HTML =>
          match m_htmlOption p_option with
          | None => NullPointer
          | Some htmlOption =>
              match doExportHtml htmlOption p_outputFile baseUrl rest' e'' with
              | Returned ret e3 rest3 =>
                  Returned ret (set_exportOngoing false e3) rest3
              | Blocked => Blocked
              | NullPointer => NullPointer
              end
          end
      | OtherFormat => Returned false (set_exportOngoing false e'') rest'
      end
  end.

(** The conditions [doExport] asserts on entry. *)
Definition doExport_asserts (p_file : File) (e : Exporter) : bool :=
  isMarkdown p_file && negb (m_exportOngoing e).

End Orchestrator.

(** ** Observations on schedules *)

Definition isLoadFinished (ev : Event) : bool :=
  match ev with EvLoadFinished => true | _ => false end.

Definition isWorkFinished (ev : Event) : bool :=
  match ev with EvWorkFinished => true | _ => false end.

Definition isStop (ev : Event) : bool :=
  match ev with EvStop => true | _ => false end.

Definition isContentReady (ev : Event) : bool :=
  match ev with EvContentReady _ _ _ => true | _ => false end.

(** ** Observations on scans *)

(** The match of [rx] at index [i] of [s], if there is one. *)
Definition matchAt (rx : QRegExp) (s : QString) (i : Z) : option RegMatch :=
  rx (charBefore s i) (skipn (Z.to_nat i) s).

(** The character before index [k] of the text [s] that follows [prev]. *)
Definition prevAt (prev : option ascii) (s : QString) (k : nat) : option ascii :=
  match k with O => prev | Datatypes.S j => nth_error s j end.

(** One iteration examined a segment and moved the cursor past it.  The
    segment examined is the first match [m] of [rx] at or after the old
    cursor, at index [idx].  Either it was skipped (the text is as it
    was and the new cursor is at the end of the match) or it was
    replaced (by a text that is not empty, the new cursor being at the
    end of the replacement).  In both cases the text before the match is
    as it was, the new cursor is inside the new text, and the text from
    the new cursor on is exactly the old text after the match: neither
    the examined segment, nor what replaced it, nor anything before it
    is scanned again. *)
Definition advances (rx : QRegExp) (st st' : Scan) : Prop :=
  exists (idx : Z) (m : RegMatch),
    pos st <= idx
    /\ matchAt rx (p_html st) idx = Some m
    /\ (forall j : Z, pos st <= j < idx -> matchAt rx (p_html st) j = None)
    /\ 0 < matchedLength m
    /\ idx + matchedLength m <= size (p_html st)
    /\ ((p_html st' = p_html st /\ pos st' = idx + matchedLength m)
        \/ (exists newUrl : QString,
               0 < size newUrl
               /\ p_html st' = replace (p_html st) idx (matchedLength m) newUrl
               /\ pos st' = idx + size newUrl))
    /\ idx < pos st' <= size (p_html st')
    /\ firstn (Z.to_nat idx) (p_html st') = firstn (Z.to_nat idx) (p_html st)
    /\ skipn (Z.to_nat (pos st')) (p_html st')
       = skipn (Z.to_nat (idx + matchedLength m)) (p_html st).

Definition notSlash (c : ascii) : bool := negb (Ascii.eqb c "/"%char).

(** The relative path as the specification words it: a dot and a slash,
    then the grandparent segment, the parent segment and the file name
    of the copied file's path. *)
Definition specRelativePath (grandparent parent filename : QString) : QString :=
  qs "./" ++ grandparent ++ qs "/" ++ parent ++ qs "/" ++ filename.

(** The last character of a text, if any. *)
Definition lastChar (s : QString) : option ascii :=
  nth_error s (Nat.pred (List.length s)).

(** The text of a match of the style pattern: the five characters up
    to the opening quote, the url, and the three characters from the
    closing quote on. *)
Definition matchText (url : QString) : QString :=
  qs "url(" ++ [dquote] ++ url ++ dquote :: qs ");".

(** The text [embedStyleResources] puts in its place. *)
Definition dataUrl (dataURI : QString) : QString :=
  qs "url('" ++ dataURI ++ qs "');".

Definition notParen (c : ascii) : bool := negb (Ascii.eqb c ")"%char).

Definition endsInWordChar (s : QString) : bool :=
  match lastChar s with Some c => isWordChar c | None => false end.

(** No match of the style pattern starts before the cursor. *)
Definition noMatchBefore (st : Scan) : Prop :=
  forall i : Z, 0 <= i < pos st -> matchAt styleUrlRegExp (p_html st) i = None.

(** ** Observations on exports *)

Definition isWriteCall (c : Call) : bool :=
  match c with CallWriteHtmlFile _ => true | _ => false end.

Definition noStop (batch : list Event) : Prop := ~ In EvStop batch.

Definition noContent (batch : list Event) : Prop :=
  forall ev, In ev batch -> isContentReady ev = false.

Section ExportObservations.
Context `{Services}.

(** Where the handler of [doExportHtml] stands for the call that
    connected it with [job], [base] being the calls made before any
    event: still connected with [state] 0; run and failed; or run with
    [writeHtmlFile] entered once for the job's output file. *)
Definition handlerPhase (job : HtmlJob) (base : list Call) (e : Exporter) : Prop :=
  (state e = 0 /\ contentReadyConnection e = Some job /\ calls e = base)
  \/ (state e = -1 /\ contentReadyConnection e = None /\ calls e = base)
  \/ (state e = 1 /\ contentReadyConnection e = None
      /\ calls e = base ++ [CallWriteHtmlFile (job_outputFile job)]).

(** What events other than a handled [contentReady] leave alone. *)
Definition sameExport (e1 e2 : Exporter) : Prop :=
  state e1 = state e2
  /\ contentReadyConnection e1 = contentReadyConnection e2
  /\ calls e1 = calls e2
  /\ world e1 = world e2
  /\ m_exportHtmlTemplate e1 = m_exportHtmlTemplate e2.

End ExportObservations.

(** The captured texts of the image pattern put back together. *)
Definition imgText (pre src post : QString) : QString :=
  qs "<img " ++ pre ++ qs "src=" ++ [dquote] ++ src ++ [dquote] ++ post ++ qs ">".

(** A scan whose flag tells whether the text changed: the cursor is
    inside the text; with the flag down the text is the original one;
    with the flag up some place before the cursor holds a single quote
    where the original has a double quote. *)
Definition changeMarked (html0 : QString) (st : Scan) : Prop :=
  0 <= pos st <= size (p_html st)
  /\ (altered st = false -> p_html st = html0)
  /\ (altered st = true ->
      exists k : nat,
        Z.of_nat k < pos st
        /\ nth_error (p_html st) k = Some "'"%char
        /\ nth_error html0 k = Some dquote).

(** ** Stub services, for concrete runs *)

(** All occurrences of [before] replaced from left to right; [skip]
    counts the characters of an occurrence still to be dropped. *)
Fixpoint replaceAllFrom (before after : QString) (skip : nat) (s : QString)
  : QString :=
  match s with
  | [] => []
  | c :: s' =>
      match skip with
      | Datatypes.S k => replaceAllFrom before after k s'
      | O =>
          if startsWith before s
          then after ++ replaceAllFrom before after (Nat.pred (List.length before)) s'
          else c :: replaceAllFrom before after O s'
      end
  end.

Definition replaceAll (before after s : QString) : QString :=
  replaceAllFrom before after O s.

(** The text after the last slash, and the text before it. *)
Definition fileName (path : QString) : QString :=
  mid path (lastIdx "/"%char path + 1).

Definition dirName (path : QString) : QString :=
  firstn (Z.to_nat (lastIdx "/"%char path)) path.

(** A world that is the list of files written; every resource converts
    to the token DATA; a resource is copied to sub/x.png under the
    folder; templates have one placeholder per fill function. *)
Definition stubServices : Services := {|
  World := list (QString * QString);
  toDataUri := fun _ _ _ => qs "DATA";
  copyResource := fun _ folder w => (folder ++ qs "/sub/x.png", w);
  resolved := fun base relative => base ++ relative;
  pathToUrl := fun path => qs "file://" ++ path;
  fillTitle := fun t v => replaceAll (qs "@TITLE@") v t;
  fillStyleContent := fun t v => replaceAll (qs "@STYLE@") v t;
  fillHeadContent := fun t v => replaceAll (qs "@HEAD@") v t;
  fillBodyContent := fun t v => replaceAll (qs "@BODY@") v t;
  completeBaseName := fun path =>
    let name := fileName path in
    if 0 <=? lastIdx "."%char name
    then firstn (Z.to_nat (lastIdx "."%char name)) name else name;
  parentDirPath := dirName;
  concatenateFilePath := fun dir name => dir ++ qs "/" ++ name;
  c_appName := qs "VNote";
  writeFile := fun path text w => (true, (path, text) :: w);
  dirExists := fun _ _ => false;
  dirIsEmpty := fun _ _ => false;
  rmdirIn := fun _ _ w => w
|}.

(** The same with a disk on which every write fails. *)
Definition readOnlyServices : Services := {|
  World := list (QString * QString);
  toDataUri := fun _ _ _ => qs "DATA";
  copyResource := fun _ folder w => ([], w);
  resolved := fun base relative => base ++ relative;
  pathToUrl := fun path => qs "file://" ++ path;
  fillTitle := fun t v => replaceAll (qs "@TITLE@") v t;
  fillStyleContent := fun t v => replaceAll (qs "@STYLE@") v t;
  fillHeadContent := fun t v => replaceAll (qs "@HEAD@") v t;
  fillBodyContent := fun t v => replaceAll (qs "@BODY@") v t;
  completeBaseName := fileName;
  parentDirPath := dirName;
  concatenateFilePath := fun dir name => dir ++ qs "/" ++ name;
  c_appName := qs "VNote";
  writeFile := fun _ _ w => (false, w);
  dirExists := fun _ _ => false;
  dirIsEmpty := fun _ _ => false;
  rmdirIn := fun _ _ w => w
|}.

(** An image tag with only a source, and a quoted CSS url. *)
Definition imgTag (src : QString) : QString :=
  qs "<img src=" ++ [dquote] ++ src ++ [dquote] ++ qs ">".

Definition cssUrl (url : QString) : QString :=
  qs "url(" ++ [dquote] ++ url ++ [dquote] ++ qs ")".

(** Services for which no resource can be converted or copied. *)
Definition offlineServices : Services := {|
  World := list (QString * QString);
  toDataUri := fun _ _ _ => [];
  copyResource := fun _ folder w => ([], w);
  resolved := fun base relative => base ++ relative;
  pathToUrl := fun path => qs "file://" ++ path;
  fillTitle := fun t v => replaceAll (qs "@TITLE@") v t;
  fillStyleContent := fun t v => replaceAll (qs "@STYLE@") v t;
  fillHeadContent := fun t v => replaceAll (qs "@HEAD@") v t;
  fillBodyContent := fun t v => replaceAll (qs "@BODY@") v t;
  completeBaseName := fileName;
  parentDirPath := dirName;
  concatenateFilePath := fun dir name => dir ++ qs "/" ++ name;
  c_appName := qs "VNote";
  writeFile := fun path text w => (true, (path, text) :: w);
  dirExists := fun _ _ => false;
  dirIsEmpty := fun _ _ => false;
  rmdirIn := fun _ _ w => w
|}.

(** An exporter after [prepare], with the given render state. *)
Definition preparedExporter (S : Services) (states : Z) (w : @World S)
  : @Exporter S := {|
  m_askedToStop := false;
  m_exportOngoing := false;
  m_webViewStates := states;
  m_htmlTemplate := qs "<html><body></body></html>";
  m_exportHtmlTemplate :=
    qs "<html><head>@TITLE@<style>@STYLE@</style>@HEAD@</head><body>@BODY@</body></html>";
  state := 0;
  contentReadyConnection := None;
  world := w;
  calls := []
|}.

(* ================================================================== *)
(** * Part II: properties *)
(* ================================================================== *)

(** ** Bits of the render state *)

Section RenderStateFacts.
Context `{WebViewState}.

Lemma flag_testbit (b n : Z) :
  0 <= b -> Z.testbit (Z.shiftl 1 b) n = (b =? n).
Proof.
  intros Hb. rewrite Z.shiftl_1_l. apply Z.pow2_bits_eqb. exact Hb.
Qed.

Lemma land_flag (s b : Z) :
  0 <= b ->
  Z.land s (Z.shiftl 1 b) = if Z.testbit s b then Z.shiftl 1 b else 0.
Proof.
  intros Hb. apply Z.bits_inj'. intros n Hn.
  rewrite Z.land_spec, flag_testbit by exact Hb.
  destruct (Z.eqb_spec b n) as [->|Hne].
  - destruct (Z.testbit s n) eqn:E.
    + rewrite flag_testbit, Z.eqb_refl by exact Hn. reflexivity.
    + rewrite Z.bits_0. reflexivity.
  - rewrite andb_false_r.
    destruct (Z.testbit s b).
    + rewrite flag_testbit by exact Hb.
      symmetry. apply Z.eqb_neq. exact Hne.
    + rewrite Z.bits_0. reflexivity.
Qed.

Lemma flag_nonzero (b : Z) : 0 <= b -> Z.shiftl 1 b <> 0.
Proof.
  intros Hb E.
  assert (Z.testbit (Z.shiftl 1 b) b = true) as T
    by (rewrite flag_testbit, Z.eqb_refl by exact Hb; reflexivity).
  rewrite E, Z.bits_0 in T. discriminate.
Qed.

Lemma testFlag_testbit (s b : Z) :
  0 <= b -> testFlag s (Z.shiftl 1 b) = Z.testbit s b.
Proof.
  intros Hb. unfold testFlag. rewrite land_flag by exact Hb.
  destruct (Z.testbit s b).
  - destruct (Z.eqb_spec (Z.shiftl 1 b) 0) as [E|_]; [|reflexivity].
    exfalso. exact (flag_nonzero b Hb E).
  - reflexivity.
Qed.

Lemma ready_bits (n : Z) :
  0 <= n ->
  Z.testbit (Z.lor LoadFinished WorkFinished) n = (loadBit =? n) || (workBit =? n).
Proof.
  intros Hn. unfold LoadFinished, WorkFinished.
  rewrite Z.lor_spec, !flag_testbit
    by (apply loadBit_nonneg || apply workBit_nonneg).
  reflexivity.
Qed.

Lemma all_bits (n : Z) :
  0 <= n ->
  Z.testbit (Z.lor LoadFinished (Z.lor WorkFinished Failed)) n
  = (loadBit =? n) || ((workBit =? n) || (failBit =? n)).
Proof.
  intros Hn. unfold LoadFinished, WorkFinished, Failed.
  rewrite !Z.lor_spec, !flag_testbit
    by (apply loadBit_nonneg || apply workBit_nonneg || apply failBit_nonneg).
  reflexivity.
Qed.

(** Equality with LoadFinished | WorkFinished, bit by bit. *)
Lemma ready_value_iff (s : Z) :
  isRenderState s ->
  (s = Z.lor LoadFinished WorkFinished <->
   Z.testbit s loadBit = true /\ Z.testbit s workBit = true
   /\ Z.testbit s failBit = false).
Proof.
  intros Hs.
  pose proof loadBit_nonneg as Hl. pose proof workBit_nonneg as Hw.
  pose proof failBit_nonneg as Hf.
  pose proof load_work_distinct as Dlw. pose proof load_fail_distinct as Dlf.
  pose proof work_fail_distinct as Dwf.
  split.
  - intros ->. rewrite !ready_bits by assumption.
    rewrite Z.eqb_refl.
    replace (workBit =? workBit) with true by (symmetry; apply Z.eqb_refl).
    replace (loadBit =? failBit) with false by (symmetry; apply Z.eqb_neq; assumption).
    replace (workBit =? failBit) with false by (symmetry; apply Z.eqb_neq; assumption).
    rewrite orb_true_r. auto.
  - intros (Tl & Tw & Tf). apply Z.bits_inj'. intros n Hn.
    rewrite ready_bits by exact Hn.
    assert (Z.testbit s n
            = Z.testbit s n && ((loadBit =? n) || ((workBit =? n) || (failBit =? n))))
      as Dom.
    { rewrite <- all_bits by exact Hn. rewrite <- Z.land_spec.
      unfold isRenderState in Hs. rewrite Hs. reflexivity. }
    destruct (Z.eqb_spec loadBit n) as [<-|Nl]; [rewrite Tl; reflexivity|].
    destruct (Z.eqb_spec workBit n) as [<-|Nw]; [rewrite Tw; reflexivity|].
    destruct (Z.eqb_spec failBit n) as [<-|Nf]; [rewrite Tf; reflexivity|].
    rewrite Dom. apply andb_false_r.
Qed.

End RenderStateFacts.

(** ** The render state under events *)

Section ReadinessFacts.
Context `{WebViewState} `{Services}.

Lemma states_writeHtmlFile f b h s body es cp ei (e : Exporter) :
  m_webViewStates (snd (writeHtmlFile f b h s body es cp ei e)) = m_webViewStates e.
Proof.
  unfold writeHtmlFile.
  destruct (assembleHtml _ _ _ _ _ _ _ _ _ _) as [doc w]. reflexivity.
Qed.

Lemma states_deliver (e : Exporter) (ev : Event) :
  m_webViewStates (deliver e ev) = Z.lor (m_webViewStates e) (signalBits ev).
Proof.
  destruct ev as [| | |h s b]; simpl; try reflexivity.
  - rewrite Z.lor_0_r. reflexivity.
  - rewrite Z.lor_0_r. destruct (contentReadyConnection e) as [job|]; [|reflexivity].
    unfold onContentReady.
    destruct (isEmpty b || m_askedToStop (set_connection None e)); [reflexivity|].
    pose proof (states_writeHtmlFile (job_outputFile job) (job_baseUrl job) h s b
                  (m_embedStyles (job_option job)) (m_completePage (job_option job))
                  (m_embedImages (job_option job)) (set_connection None e)) as W.
    destruct (writeHtmlFile _ _ _ _ _ _ _ _ _) as [ok e'].
    simpl in W. destruct ok; simpl; exact W.
Qed.

Lemma signalBits_testbit (ev : Event) (n : Z) :
  0 <= n ->
  Z.testbit (signalBits ev) n
  = (isLoadFinished ev && (loadBit =? n)) || (isWorkFinished ev && (workBit =? n)).
Proof.
  intros Hn. destruct ev; simpl.
  - unfold LoadFinished. rewrite flag_testbit by apply loadBit_nonneg.
    rewrite orb_false_r. reflexivity.
  - unfold WorkFinished. rewrite flag_testbit by apply workBit_nonneg. reflexivity.
  - apply Z.bits_0.
  - apply Z.bits_0.
Qed.

Lemma states_deliverAll_testbit (evs : list Event) (e : Exporter) (n : Z) :
  0 <= n ->
  Z.testbit (m_webViewStates (deliverAll evs e)) n
  = Z.testbit (m_webViewStates e) n
    || (existsb isLoadFinished evs && (loadBit =? n))
    || (existsb isWorkFinished evs && (workBit =? n)).
Proof.
  intros Hn. revert e. unfold deliverAll.
  induction evs as [|ev evs IH]; intros e; simpl.
  - rewrite !orb_false_r. reflexivity.
  - rewrite IH, states_deliver, Z.lor_spec, signalBits_testbit by exact Hn.
    destruct (Z.testbit (m_webViewStates e) n), (isLoadFinished ev),
      (isWorkFinished ev), (existsb isLoadFinished evs),
      (existsb isWorkFinished evs), (loadBit =? n), (workBit =? n); reflexivity.
Qed.

Lemma existsb_isLoadFinished (evs : list Event) :
  existsb isLoadFinished evs = true <-> In EvLoadFinished evs.
Proof.
  rewrite existsb_exists. split.
  - intros (ev & Hin & Hev). destruct ev; try discriminate. exact Hin.
  - intros Hin. exists EvLoadFinished. split; [exact Hin|reflexivity].
Qed.

Lemma existsb_isWorkFinished (evs : list Event) :
  existsb isWorkFinished evs = true <-> In EvWorkFinished evs.
Proof.
  rewrite existsb_exists. split.
  - intros (ev & Hin & Hev). destruct ev; try discriminate. exact Hin.
  - intros Hin. exists EvWorkFinished. split; [exact Hin|reflexivity].
Qed.

Lemma isWebViewReady_true (e : Exporter) :
  isWebViewReady e = true <-> m_webViewStates e = Z.lor LoadFinished WorkFinished.
Proof. unfold isWebViewReady. apply Z.eqb_eq. Qed.

(** From the empty state, readiness is reached by the two signals, in
    any order and among any other events, and by nothing less. *)
Lemma started_ready_iff (e : Exporter) (evs : list Event) :
  m_webViewStates e = Started ->
  (isWebViewReady (deliverAll evs e) = true
   <-> In EvLoadFinished evs /\ In EvWorkFinished evs).
Proof.
  intros S0.
  assert (isRenderState (m_webViewStates (deliverAll evs e))) as Dom.
  { unfold isRenderState. apply Z.bits_inj'. intros n Hn.
    rewrite Z.land_spec, all_bits, states_deliverAll_testbit by exact Hn.
    rewrite S0. change Started with 0. rewrite Z.bits_0.
    destruct (existsb isLoadFinished evs), (existsb isWorkFinished evs),
      (loadBit =? n), (workBit =? n), (failBit =? n); reflexivity. }
  rewrite isWebViewReady_true, (ready_value_iff _ Dom).
  rewrite !states_deliverAll_testbit
    by (apply loadBit_nonneg || apply workBit_nonneg || apply failBit_nonneg).
  rewrite S0. change Started with 0.
  rewrite !Z.bits_0, <- existsb_isLoadFinished, <- existsb_isWorkFinished.
  pose proof load_work_distinct as Dlw. pose proof load_fail_distinct as Dlf.
  pose proof work_fail_distinct as Dwf.
  rewrite !Z.eqb_refl.
  replace (workBit =? loadBit) with false by (symmetry; apply Z.eqb_neq; congruence).
  replace (loadBit =? workBit) with false by (symmetry; apply Z.eqb_neq; congruence).
  replace (loadBit =? failBit) with false by (symmetry; apply Z.eqb_neq; congruence).
  replace (workBit =? failBit) with false by (symmetry; apply Z.eqb_neq; congruence).
  destruct (existsb isLoadFinished evs), (existsb isWorkFinished evs);
    simpl; intuition congruence.
Qed.

(** C1.  [isWebViewReady] is true exactly when LoadFinished and
    WorkFinished are set and Failed is not, for every value of the
    render-state bitset; and from the state [Started] that [doExport]
    sets, after any events in any order it is true exactly when both
    the load-finished and the work-finished signal were among them. *)
Theorem isWebViewReady_iff_flags (e : Exporter) :
  isRenderState (m_webViewStates e) ->
  (isWebViewReady e = true <->
   testFlag (m_webViewStates e) LoadFinished = true
   /\ testFlag (m_webViewStates e) WorkFinished = true
   /\ testFlag (m_webViewStates e) Failed = false)
  /\ (forall evs : list Event,
        isWebViewReady (deliverAll evs (set_webViewStates Started e)) = true
        <-> In EvLoadFinished evs /\ In EvWorkFinished evs).
Proof.
  intros Hs.
  assert (forall e' : Exporter,
             isRenderState (m_webViewStates e') ->
             (isWebViewReady e' = true <->
              Z.testbit (m_webViewStates e') loadBit = true
              /\ Z.testbit (m_webViewStates e') workBit = true
              /\ Z.testbit (m_webViewStates e') failBit = false)) as Bits.
  { intros e' He'. rewrite isWebViewReady_true. apply ready_value_iff. exact He'. }
  split.
  - unfold LoadFinished, WorkFinished, Failed.
    rewrite !testFlag_testbit
      by (apply loadBit_nonneg || apply workBit_nonneg || apply failBit_nonneg).
    apply Bits. exact Hs.
  - intros evs. apply started_ready_iff. reflexivity.
Qed.

(** C2.  Once Failed is set, [isWebViewReady] is false after every further
    sequence of events: the callbacks only OR bits in. *)
Theorem failed_never_ready (e : Exporter) (evs : list Event) :
  testFlag (m_webViewStates e) Failed = true ->
  isWebViewFailed (deliverAll evs e) = true
  /\ isWebViewReady (deliverAll evs e) = false.
Proof.
  unfold isWebViewFailed, Failed.
  rewrite !testFlag_testbit by apply failBit_nonneg.
  intros Hf.
  assert (Z.testbit (m_webViewStates (deliverAll evs e)) failBit = true) as Hf'.
  { rewrite states_deliverAll_testbit by apply failBit_nonneg.
    rewrite Hf. reflexivity. }
  split; [exact Hf'|].
  destruct (isWebViewReady (deliverAll evs e)) eqn:R; [|reflexivity].
  apply isWebViewReady_true in R. rewrite R, ready_bits in Hf' by apply failBit_nonneg.
  pose proof load_fail_distinct as Dlf. pose proof work_fail_distinct as Dwf.
  apply orb_true_iff in Hf'. destruct Hf' as [E|E]; apply Z.eqb_eq in E; congruence.
Qed.

End ReadinessFacts.

(** ** What events change *)

Section EventFacts.
Context `{WebViewState} `{Services}.

Lemma writeHtmlFile_effect f b h s body es cp ei (e : Exporter) :
  exists w' : World,
    writeHtmlFile f b h s body es cp ei e
    = (true, set_world w' (record (CallWriteHtmlFile f) e)).
Proof.
  unfold writeHtmlFile.
  destruct (assembleHtml _ _ _ _ _ _ _ _ _ _) as [doc w].
  eexists. reflexivity.
Qed.

Lemma onContentReady_effect job h s b (e : Exporter) :
  (onContentReady job h s b e = set_state (-1) (set_connection None e)
   /\ (isEmpty b || m_askedToStop e) = true)
  \/ (exists w' : World,
         onContentReady job h s b e
         = set_state 1 (set_world w'
             (record (CallWriteHtmlFile (job_outputFile job)) (set_connection None e)))
         /\ (isEmpty b || m_askedToStop e) = false).
Proof.
  unfold onContentReady.
  change (m_askedToStop (set_connection None e)) with (m_askedToStop e).
  destruct (isEmpty b || m_askedToStop e).
  - left. split; reflexivity.
  - right.
    destruct (writeHtmlFile_effect (job_outputFile job) (job_baseUrl job) h s b
                (m_embedStyles (job_option job)) (m_completePage (job_option job))
                (m_embedImages (job_option job)) (set_connection None e)) as [w' E].
    rewrite E. exists w'. split; reflexivity.
Qed.

Lemma askedToStop_deliver (e : Exporter) (ev : Event) :
  m_askedToStop (deliver e ev) = m_askedToStop e || isStop ev.
Proof.
  destruct ev as [| | |h s b]; simpl;
    rewrite ?orb_false_r, ?orb_true_r; try reflexivity.
  destruct (contentReadyConnection e) as [job|]; [|reflexivity].
  destruct (onContentReady_effect job h s b e) as [[E _]|[w' [E _]]];
    rewrite E; reflexivity.
Qed.

Lemma askedToStop_deliverAll (evs : list Event) (e : Exporter) :
  m_askedToStop (deliverAll evs e) = m_askedToStop e || existsb isStop evs.
Proof.
  revert e. unfold deliverAll.
  induction evs as [|ev evs IH]; intros e; simpl.
  - rewrite orb_false_r. reflexivity.
  - rewrite IH, askedToStop_deliver, orb_assoc. reflexivity.
Qed.

Lemma calls_deliver (e : Exporter) (ev : Event) :
  exists added : list Call,
    calls (deliver e ev) = calls e ++ added /\ ~ In CallDoExportHtml added.
Proof.
  destruct ev as [| | |h s b]; simpl;
    try (exists []; rewrite app_nil_r; split; [reflexivity|intros []]).
  destruct (contentReadyConnection e) as [job|];
    [|exists []; rewrite app_nil_r; split; [reflexivity|intros []]].
  destruct (onContentReady_effect job h s b e) as [[E _]|[w' [E _]]]; rewrite E.
  - exists []. rewrite app_nil_r. split; [reflexivity|intros []].
  - exists [CallWriteHtmlFile (job_outputFile job)]. split; [reflexivity|].
    intros [D|[]]. discriminate D.
Qed.

Lemma calls_deliverAll (evs : list Event) (e : Exporter) :
  exists added : list Call,
    calls (deliverAll evs e) = calls e ++ added /\ ~ In CallDoExportHtml added.
Proof.
  revert e. unfold deliverAll.
  induction evs as [|ev evs IH]; intros e; simpl.
  - exists []. rewrite app_nil_r. split; [reflexivity|intros []].
  - destruct (IH (deliver e ev)) as (a2 & E2 & N2).
    destruct (calls_deliver e ev) as (a1 & E1 & N1).
    exists (a1 ++ a2). rewrite E2, E1, app_assoc. split; [reflexivity|].
    intros Hin. apply in_app_or in Hin. tauto.
Qed.

Lemma deliverAll_app (evs1 evs2 : list Event) (e : Exporter) :
  deliverAll (evs1 ++ evs2) e = deliverAll evs2 (deliverAll evs1 e).
Proof. unfold deliverAll. apply fold_left_app. Qed.

(** Readiness is kept by further events. *)
Lemma ready_deliverAll (evs : list Event) (e : Exporter) :
  isWebViewReady e = true -> isWebViewReady (deliverAll evs e) = true.
Proof.
  rewrite !isWebViewReady_true. intros R.
  apply Z.bits_inj'. intros n Hn.
  rewrite states_deliverAll_testbit, R, ready_bits by exact Hn.
  destruct (existsb isLoadFinished evs), (existsb isWorkFinished evs),
    (loadBit =? n), (workBit =? n); reflexivity.
Qed.

Lemma failBit_deliverAll (evs : list Event) (e : Exporter) :
  Z.testbit (m_webViewStates (deliverAll evs e)) failBit
  = Z.testbit (m_webViewStates e) failBit.
Proof.
  rewrite states_deliverAll_testbit by apply failBit_nonneg.
  pose proof load_fail_distinct as Dlf. pose proof work_fail_distinct as Dwf.
  replace (loadBit =? failBit) with false by (symmetry; apply Z.eqb_neq; congruence).
  replace (workBit =? failBit) with false by (symmetry; apply Z.eqb_neq; congruence).
  rewrite !andb_false_r, !orb_false_r. reflexivity.
Qed.

Lemma isWebViewFailed_testbit (e : Exporter) :
  isWebViewFailed e = Z.testbit (m_webViewStates e) failBit.
Proof. unfold isWebViewFailed, Failed. apply testFlag_testbit, failBit_nonneg. Qed.

Lemma existsb_isStop (evs : list Event) :
  existsb isStop evs = true <-> In EvStop evs.
Proof.
  rewrite existsb_exists. split.
  - intros (ev & Hin & Hev). destruct ev; try discriminate. exact Hin.
  - intros Hin. exists EvStop. split; [exact Hin|reflexivity].
Qed.

(** The readiness loop: while neither stopped nor failed nor ready it
    takes one batch after the other; the batch in which [stop] is called
    ends it. *)
Lemma readinessLoop_stop (pre : Schedule) (batch : list Event) (post : Schedule)
  (e : Exporter) :
  (forall b, In b pre -> ~ In EvStop b) ->
  m_askedToStop e = false ->
  isWebViewFailed e = false ->
  isWebViewReady (deliverAll (List.concat pre) e) = false ->
  In EvStop batch ->
  readinessLoop (pre ++ batch :: post) e
  = ExitExport (deliverAll batch (deliverAll (List.concat pre) e)) post.
Proof.
  revert e. induction pre as [|b pre IH]; intros e Hpre Hstop Hfail Hready Hbatch.
  - simpl in *. change (deliverAll [] e) with e in *.
    rewrite Hready, askedToStop_deliverAll.
    apply existsb_isStop in Hbatch. rewrite Hbatch, orb_true_r. reflexivity.
  - simpl List.concat in Hready. rewrite deliverAll_app in Hready.
    simpl. rewrite deliverAll_app.
    destruct (isWebViewReady e) eqn:R.
    + rewrite ready_deliverAll in Hready; [discriminate|].
      apply ready_deliverAll. exact R.
    + assert (m_askedToStop (deliverAll b e) = false) as Hstop'.
      { rewrite askedToStop_deliverAll, Hstop. simpl.
        destruct (existsb isStop b) eqn:E; [|reflexivity].
        apply existsb_isStop in E. exfalso. exact (Hpre b (or_introl eq_refl) E). }
      assert (isWebViewFailed (deliverAll b e) = false) as Hfail'.
      { rewrite isWebViewFailed_testbit in *. rewrite failBit_deliverAll. exact Hfail. }
      rewrite Hstop', Hfail'.
      apply IH; try assumption.
      intros b' Hin. apply Hpre. right. exact Hin.
Qed.

End EventFacts.

(** ** The two polling loops *)

Section PollingFacts.
Context `{WebViewState} `{Services}.

(** C3.  When [stop] is called during a wait of the readiness loop,
    neither stopped before nor ready yet, [doExport] returns false right
    after that wait (the schedule left is what follows the batch),
    clears the ongoing flag, and has not entered [doExportHtml]. *)
Theorem doExport_stop_while_waiting (p_option : ExportOption) (p_file : File)
  (p_outputFile : QString) (pre : Schedule) (batch : list Event)
  (post : Schedule) (e : Exporter) :
  (forall b, In b pre -> ~ In EvStop b) ->
  ~ (In EvLoadFinished (List.concat pre) /\ In EvWorkFinished (List.concat pre)) ->
  In EvStop batch ->
  exists (e' : Exporter) (added : list Call),
    doExport p_option p_file p_outputFile (pre ++ batch :: post) e
    = Returned false e' post
    /\ m_exportOngoing e' = false
    /\ calls e' = calls e ++ added
    /\ ~ In CallDoExportHtml added.
Proof.
  intros Hpre Hnot Hbatch. unfold doExport.
  set (e0 := record (CallSetText (read p_file)) _).
  assert (isWebViewReady (deliverAll (List.concat pre) e0) = false) as Hready.
  { destruct (isWebViewReady (deliverAll (List.concat pre) e0)) eqn:R; [|reflexivity].
    exfalso. apply Hnot. apply (started_ready_iff e0); [reflexivity|exact R]. }
  assert (isWebViewFailed e0 = false) as Hfail.
  { rewrite isWebViewFailed_testbit. subst e0. simpl.
    change Started with 0. apply Z.bits_0. }
  rewrite (readinessLoop_stop pre batch post e0 Hpre eq_refl Hfail Hready Hbatch).
  destruct (calls_deliverAll (List.concat pre ++ batch) e0) as (added & E & N).
  rewrite deliverAll_app in E.
  eexists. exists (CallSetHtml (m_htmlTemplate e) (pathToUrl (getContentPath p_file))
                     :: CallSetText (read p_file) :: added).
  split; [reflexivity|]. split; [reflexivity|]. split.
  - simpl. rewrite E. subst e0. simpl. rewrite <- !app_assoc. reflexivity.
  - intros [D|[D|Hin]]; try discriminate. exact (N Hin).
Qed.

Lemma deliver_other (e : Exporter) (ev : Event) :
  isContentReady ev = false ->
  state (deliver e ev) = state e
  /\ contentReadyConnection (deliver e ev) = contentReadyConnection e
  /\ calls (deliver e ev) = calls e.
Proof. destruct ev; intros E; try discriminate; repeat split. Qed.

Lemma deliverAll_other (evs : list Event) (e : Exporter) :
  (forall ev, In ev evs -> isContentReady ev = false) ->
  state (deliverAll evs e) = state e
  /\ contentReadyConnection (deliverAll evs e) = contentReadyConnection e
  /\ calls (deliverAll evs e) = calls e.
Proof.
  revert e. unfold deliverAll.
  induction evs as [|ev evs IH]; intros e Hevs; simpl.
  - repeat split.
  - destruct (deliver_other e ev) as (E1 & E2 & E3);
      [apply Hevs; left; reflexivity|].
    destruct (IH (deliver e ev)) as (F1 & F2 & F3);
      [intros ev' Hin; apply Hevs; right; exact Hin|].
    rewrite F1, F2, F3. repeat split; assumption.
Qed.

(** Without a connection, [contentReady] reaches nobody. *)
Lemma deliverAll_disconnected (evs : list Event) (e : Exporter) :
  contentReadyConnection e = None ->
  state (deliverAll evs e) = state e /\ calls (deliverAll evs e) = calls e.
Proof.
  revert e. unfold deliverAll.
  induction evs as [|ev evs IH]; intros e Hc; simpl.
  - split; reflexivity.
  - assert (state (deliver e ev) = state e
            /\ contentReadyConnection (deliver e ev) = None
            /\ calls (deliver e ev) = calls e) as (E1 & E2 & E3).
    { destruct ev; simpl; rewrite ?Hc; repeat split; assumption. }
    destruct (IH (deliver e ev) E2) as (F1 & F2).
    rewrite F1, F2. split; assumption.
Qed.

Lemma contentLoop_left (sched : Schedule) (e : Exporter) :
  state e <> 0 -> contentLoop sched e = Some (e, sched).
Proof.
  intros Hs. apply Z.eqb_neq in Hs. destruct sched; simpl; rewrite Hs; reflexivity.
Qed.

(** The content loop when the first [contentReady] carries an empty body:
    it is left with [state] other than 1 and without further calls. *)
Lemma contentLoop_empty_body (job : HtmlJob) (pre : Schedule)
  (evs1 : list Event) (h s : QString) (evs2 : list Event) (post : Schedule)
  (e : Exporter) :
  (forall ev, In ev (List.concat pre ++ evs1) -> isContentReady ev = false) ->
  state e = 0 ->
  contentReadyConnection e = Some job ->
  exists (e' : Exporter) (rest : Schedule),
    contentLoop (pre ++ (evs1 ++ EvContentReady h s [] :: evs2) :: post) e
    = Some (e', rest)
    /\ (state e' =? 1) = false
    /\ calls e' = calls e.
Proof.
  revert e. induction pre as [|b pre IH]; intros e Hevs Hstate Hconn.
  - simpl in Hevs. simpl. rewrite Hstate. simpl.
    rewrite deliverAll_app.
    destruct (deliverAll_other evs1 e Hevs) as (E1 & E2 & E3).
    set (e1 := deliverAll evs1 e) in *.
    change (deliverAll (EvContentReady h s [] :: evs2) e1)
      with (deliverAll evs2 (deliver e1 (EvContentReady h s []))).
    assert (deliver e1 (EvContentReady h s []) = set_state (-1) (set_connection None e1))
      as D by (simpl; rewrite E2, Hconn; reflexivity).
    rewrite D.
    destruct (deliverAll_disconnected evs2 (set_state (-1) (set_connection None e1))
                eq_refl) as (F1 & F2).
    set (e2 := deliverAll evs2 _) in *. simpl in F1, F2.
    exists e2, post. split.
    + destruct (m_askedToStop e2); [reflexivity|].
      apply contentLoop_left. rewrite F1. discriminate.
    + rewrite F1, F2, E3. split; reflexivity.
  - simpl. rewrite Hstate. simpl.
    assert (forall ev, In ev b -> isContentReady ev = false) as Hb.
    { intros ev Hin. apply Hevs. simpl. rewrite <- app_assoc.
      apply in_or_app. left. exact Hin. }
    destruct (deliverAll_other b e Hb) as (E1 & E2 & E3).
    destruct (m_askedToStop (deliverAll b e)).
    + eexists. eexists. split; [reflexivity|].
      rewrite E1, Hstate, E3. split; reflexivity.
    + destruct (IH (deliverAll b e)) as (e' & rest & L & S1 & C).
      * intros ev Hin. apply Hevs. simpl. rewrite <- app_assoc.
        apply in_or_app. right. exact Hin.
      * rewrite E1. exact Hstate.
      * rewrite E2. exact Hconn.
      * exists e', rest. rewrite L, S1, C, E3. repeat split.
Qed.

(** C5.  When the first [contentReady] that arrives carries an empty
    body, whatever the head and style content, [doExportHtml] returns
    false and [writeHtmlFile] is not entered: the only calls are its own
    entry and [saveContent]. *)
Theorem doExportHtml_empty_body (p_htmlOption : ExportHtmlOption)
  (p_outputFile : QString) (p_baseUrl : QUrl) (pre : Schedule)
  (evs1 : list Event) (p_headContent p_styleContent : QString)
  (evs2 : list Event) (post : Schedule) (e : Exporter) :
  (forall ev, In ev (List.concat pre ++ evs1) -> isContentReady ev = false) ->
  exists (e' : Exporter) (rest : Schedule),
    doExportHtml p_htmlOption p_outputFile p_baseUrl
      (pre ++ (evs1 ++ EvContentReady p_headContent p_styleContent [] :: evs2) :: post) e
    = Returned false e' rest
    /\ calls e' = calls e ++ [CallDoExportHtml; CallSaveContent].
Proof.
  intros Hevs. unfold doExportHtml.
  set (job := {| job_option := p_htmlOption; job_outputFile := p_outputFile;
                 job_baseUrl := p_baseUrl |}).
  set (e0 := record CallSaveContent _).
  destruct (contentLoop_empty_body job pre evs1 p_headContent p_styleContent evs2
              post e0 Hevs eq_refl eq_refl) as (e' & rest & L & S1 & C).
  exists e', rest. rewrite L, S1, C. split; [reflexivity|].
  subst e0. simpl. rewrite <- app_assoc. reflexivity.
Qed.

(** C6.  [writeHtmlFile] returns true on every input and for every
    behaviour of the services, whatever [writeFile] reports; on every
    path the write is attempted, with the assembled document, and only
    its effect on the world is kept. *)
Theorem writeHtmlFile_returns_true (p_file : QString) (p_baseUrl : QUrl)
  (p_headContent p_styleContent p_bodyContent : QString)
  (p_embedStyles p_completePage p_embedImages : bool) (e : Exporter) :
  fst (writeHtmlFile p_file p_baseUrl p_headContent p_styleContent p_bodyContent
         p_embedStyles p_completePage p_embedImages e) = true
  /\ (let folderName := completeBaseName p_file ++ qs "_files" in
      let folder := concatenateFilePath (parentDirPath p_file) folderName in
      let assembled :=
        assembleHtml (record (CallWriteHtmlFile p_file) e)
          (completeBaseName p_file ++ qs " - " ++ c_appName) folder p_baseUrl
          p_headContent p_styleContent p_bodyContent
          p_embedStyles p_completePage p_embedImages in
      let written := writeFile p_file (fst assembled) (snd assembled) in
      world (snd (writeHtmlFile p_file p_baseUrl p_headContent p_styleContent
                    p_bodyContent p_embedStyles p_completePage p_embedImages e))
      = if dirExists folder (snd written) && dirIsEmpty folder (snd written)
        then rmdirIn folder folderName (snd written) else snd written).
Proof.
  unfold writeHtmlFile.
  destruct (assembleHtml _ _ _ _ _ _ _ _ _ _) as [doc w].
  split; reflexivity.
Qed.

(** C4, as amended.  With [embedStyles] false the style content is not
    used at all: the call behaves as for an empty style content, and
    the document is the template with title, head (when there is one)
    and body filled in, [fillStyleContent] not being applied. *)
Theorem writeHtmlFile_embedStyles_false (p_file : QString) (p_baseUrl : QUrl)
  (p_headContent p_styleContent p_bodyContent : QString)
  (p_completePage p_embedImages : bool) (title resourceFolder : QString)
  (e : Exporter) :
  writeHtmlFile p_file p_baseUrl p_headContent p_styleContent p_bodyContent
    false p_completePage p_embedImages e
  = writeHtmlFile p_file p_baseUrl p_headContent [] p_bodyContent
      false p_completePage p_embedImages e
  /\ exists bodyContent : QString,
       fst (assembleHtml e title resourceFolder p_baseUrl p_headContent
              p_styleContent p_bodyContent false p_completePage p_embedImages)
       = fillBodyContent
           (if isEmpty p_headContent
            then fillTitle (m_exportHtmlTemplate e) title
            else fillHeadContent (fillTitle (m_exportHtmlTemplate e) title)
                   p_headContent)
           bodyContent.
Proof.
  split.
  - unfold writeHtmlFile, assembleHtml. rewrite andb_false_r. reflexivity.
  - unfold assembleHtml. rewrite andb_false_r.
    destruct (isEmpty p_headContent); simpl;
      destruct p_completePage; try (eexists; reflexivity);
      destruct p_embedImages; try (eexists; reflexivity);
      destruct (fixBodyResources _ _ _ _) as [[bodyContent a] w];
      eexists; reflexivity.
Qed.

End PollingFacts.

(** ** Strings and matches *)

(** Both sides of an equation between concatenations, flattened. *)
Ltac flatten_app :=
  cbv [qs list_ascii_of_string];
  repeat (progress (simpl app; rewrite <- ?app_assoc)).

Section StringFacts.

Lemma size_nonneg (s : QString) : 0 <= size s.
Proof. unfold size. lia. Qed.

Lemma size_app (a b : QString) : size (a ++ b) = size a + size b.
Proof. unfold size. rewrite length_app. lia. Qed.

Lemma size_cons (c : ascii) (s : QString) : size (c :: s) = 1 + size s.
Proof. unfold size. simpl List.length. lia. Qed.

Lemma stripPrefix_Some (p s r : QString) :
  stripPrefix p s = Some r -> s = p ++ r.
Proof.
  revert s. induction p as [|a p IH]; intros s E; simpl in E.
  - injection E as ->. reflexivity.
  - destruct s as [|b s]; [discriminate|].
    destruct (Ascii.eqb_spec a b) as [->|]; [|discriminate].
    simpl. f_equal. apply IH. exact E.
Qed.

Lemma stripPrefix_app (p r : QString) : stripPrefix p (p ++ r) = Some r.
Proof.
  induction p as [|a p IH]; simpl; [reflexivity|].
  rewrite Ascii.eqb_refl. exact IH.
Qed.

Lemma span_app (f : ascii -> bool) (s a b : QString) :
  span f s = (a, b) -> s = a ++ b.
Proof.
  revert a b. induction s as [|c s IH]; intros a b E; simpl in E.
  - injection E as <- <-. reflexivity.
  - destruct (f c).
    + destruct (span f s) as [a' b']. injection E as <- <-.
      simpl. f_equal. apply IH. reflexivity.
    + injection E as <- <-. reflexivity.
Qed.

Lemma span_all (f : ascii -> bool) (s a b : QString) :
  span f s = (a, b) -> forallb f a = true.
Proof.
  revert a b. induction s as [|c s IH]; intros a b E; simpl in E.
  - injection E as <- <-. reflexivity.
  - destruct (f c) eqn:F.
    + destruct (span f s) as [a' b']. injection E as <- <-.
      simpl. rewrite F. apply (IH a' b'). reflexivity.
    + injection E as <- <-. reflexivity.
Qed.

Lemma span_stop (f : ascii -> bool) (s a b : QString) :
  span f s = (a, b) ->
  match b with [] => True | c :: _ => f c = false end.
Proof.
  revert a b. induction s as [|c s IH]; intros a b E; simpl in E.
  - injection E as <- <-. exact I.
  - destruct (f c) eqn:F.
    + destruct (span f s) as [a' b']. injection E as <- <-.
      apply (IH a' b'). reflexivity.
    + injection E as <- <-. exact F.
Qed.

(** A match of the style pattern is a non-empty prefix of the text. *)
Lemma styleUrlRegExp_prefix (prev : option ascii) (s : QString) (m : RegMatch) :
  styleUrlRegExp prev s = Some m ->
  exists rest : QString,
    s = cap m 0 ++ rest /\ matchedLength m = size (cap m 0) /\ 0 < matchedLength m.
Proof.
  unfold styleUrlRegExp. intros E.
  destruct (wordBoundary prev s); [|discriminate].
  destruct (stripPrefix (qs "url(" ++ [dquote]) s) as [r|] eqn:P1; [|discriminate].
  destruct (fileOrQrc r) as [[scheme r1]|] eqn:P2; [|discriminate].
  destruct (stripPrefix (qs ":") r1) as [r2|] eqn:P3; [|discriminate].
  destruct (span notQuoteParen r2) as [body r3] eqn:P4.
  destruct (isEmpty body); [discriminate|].
  destruct (stripPrefix (dquote :: qs ");") r3) as [rest|] eqn:P5; [|discriminate].
  injection E as <-. exists rest. unfold cap. simpl nth. simpl matchedLength.
  apply stripPrefix_Some in P1, P3, P5. apply span_app in P4.
  assert (r = scheme ++ r1) as P2'.
  { unfold fileOrQrc in P2.
    destruct (stripPrefix (qs "file") r) as [x|] eqn:F.
    - injection P2 as <- <-. apply stripPrefix_Some. exact F.
    - destruct (stripPrefix (qs "qrc") r) as [x|] eqn:Q; [|discriminate].
      injection P2 as <- <-. apply stripPrefix_Some. exact Q. }
  split; [|split; [reflexivity|]].
  - rewrite P1, P2', P3, P4, P5. flatten_app. reflexivity.
  - flatten_app. rewrite !size_cons. pose proof (size_nonneg (scheme ++ ":"%char :: body ++ [dquote; ")"%char; ";"%char])). lia.
Qed.

Lemma imgSrcTail_Some (s src post : QString) :
  imgSrcTail s = Some (src, post) ->
  isEmpty src = false
  /\ exists rest : QString,
       s = qs "src=" ++ [dquote] ++ src ++ [dquote] ++ post ++ qs ">" ++ rest.
Proof.
  unfold imgSrcTail. intros E.
  destruct (stripPrefix (qs "src=" ++ [dquote]) s) as [r|] eqn:P1; [|discriminate].
  destruct (span notQuote r) as [src' r1] eqn:P2.
  destruct (isEmpty src') eqn:Ne; [discriminate|].
  destruct (stripPrefix [dquote] r1) as [r2|] eqn:P3; [|discriminate].
  destruct (span notGt r2) as [post' r3] eqn:P4.
  destruct (stripPrefix (qs ">") r3) as [rest|] eqn:P5; [|discriminate].
  injection E as <- <-. split; [exact Ne|]. exists rest.
  apply stripPrefix_Some in P1, P3, P5. apply span_app in P2, P4.
  rewrite P1, P2, P3, P4, P5. flatten_app. reflexivity.
Qed.

Lemma imgAttrs_Some (acc s pre src post : QString) :
  imgAttrs acc s = Some (pre, src, post) ->
  isEmpty src = false
  /\ exists rest : QString,
       rev acc ++ s
       = pre ++ qs "src=" ++ [dquote] ++ src ++ [dquote] ++ post ++ qs ">" ++ rest.
Proof.
  revert acc. induction s as [|c s IH]; intros acc E.
  - simpl in E. discriminate.
  - simpl imgAttrs in E.
    assert (match imgSrcTail (c :: s) with
            | Some (src0, post0) => Some (rev acc, src0, post0)
            | None => None
            end = Some (pre, src, post) ->
            isEmpty src = false
            /\ exists rest : QString,
                 rev acc ++ c :: s
                 = pre ++ qs "src=" ++ [dquote] ++ src ++ [dquote] ++ post
                   ++ qs ">" ++ rest) as Here.
    { intros E'. destruct (imgSrcTail (c :: s)) as [[src0 post0]|] eqn:T; [|discriminate].
      injection E' as <- <- <-. apply imgSrcTail_Some in T. destruct T as [Ne [rest T]].
      split; [exact Ne|]. exists rest. rewrite T. flatten_app. reflexivity. }
    destruct (notGt c).
    + destruct (imgAttrs (c :: acc) s) as [m|] eqn:L.
      * injection E as ->. apply IH in L. destruct L as [Ne [rest L]].
        split; [exact Ne|].
        exists rest. rewrite <- L. simpl. rewrite <- app_assoc. reflexivity.
      * apply Here. exact E.
    + apply Here. exact E.
Qed.

(** A match of the image pattern is a non-empty prefix of the text. *)
Lemma c_imgRegExp_prefix (prev : option ascii) (s : QString) (m : RegMatch) :
  c_imgRegExp prev s = Some m ->
  exists rest : QString,
    s = cap m 0 ++ rest /\ matchedLength m = size (cap m 0) /\ 0 < matchedLength m.
Proof.
  unfold c_imgRegExp. intros E.
  destruct (stripPrefix (qs "<img ") s) as [r|] eqn:P1; [|discriminate].
  destruct (imgAttrs [] r) as [[[pre src] post]|] eqn:P2; [|discriminate].
  injection E as <-. unfold cap. simpl nth. simpl matchedLength.
  apply stripPrefix_Some in P1. apply imgAttrs_Some in P2.
  destruct P2 as [_ [rest P2]].
  simpl rev in P2. simpl app in P2 at 1.
  exists rest. split; [|split; [reflexivity|]].
  - rewrite P1, P2. flatten_app. reflexivity.
  - flatten_app. rewrite !size_cons.
    match goal with |- context [size ?x] => pose proof (size_nonneg x) end. lia.
Qed.

(** The source value captured by the image pattern is never empty. *)
Lemma c_imgRegExp_src (prev : option ascii) (s : QString) (m : RegMatch) :
  c_imgRegExp prev s = Some m -> isEmpty (cap m 2) = false.
Proof.
  unfold c_imgRegExp. intros E.
  destruct (stripPrefix (qs "<img ") s) as [r|] eqn:P1; [|discriminate].
  destruct (imgAttrs [] r) as [[[pre src] post]|] eqn:P2; [|discriminate].
  injection E as <-. apply imgAttrs_Some in P2. exact (proj1 P2).
Qed.

Lemma lastIdx_absent (ch : ascii) (l : QString) :
  forallb (fun c => negb (Ascii.eqb c ch)) l = true -> lastIdx ch l = -1.
Proof.
  induction l as [|c l IH]; intros Hl; simpl in *; [reflexivity|].
  apply andb_true_iff in Hl. destruct Hl as [Hc Hl].
  rewrite (IH Hl). simpl. apply negb_true_iff in Hc. rewrite Hc. reflexivity.
Qed.

Lemma lastIdx_app (ch : ascii) (a b : QString) :
  forallb (fun c => negb (Ascii.eqb c ch)) b = true ->
  lastIdx ch (a ++ ch :: b) = size a.
Proof.
  intros Hb. induction a as [|c a IH]; simpl.
  - rewrite (lastIdx_absent ch b Hb). simpl. rewrite Ascii.eqb_refl. reflexivity.
  - rewrite IH. pose proof (size_nonneg a) as Ha.
    destruct (Z.leb_spec 0 (size a)); [|lia]. rewrite size_cons. lia.
Qed.

End StringFacts.

(** ** Searching *)

Section SearchFacts.
Variable rx : QRegExp.

Lemma searchFrom_found (prev : option ascii) (s : QString) (i idx : Z)
  (m : RegMatch) :
  0 <= i ->
  searchFrom rx prev s i = (idx, m) ->
  idx <> -1 ->
  exists k : nat,
    idx = i + Z.of_nat k /\ (k <= List.length s)%nat
    /\ rx (prevAt prev s k) (skipn k s) = Some m
    /\ forall j : nat, (j < k)%nat -> rx (prevAt prev s j) (skipn j s) = None.
Proof.
  revert prev i. induction s as [|c s IH]; intros prev i Hi E Hidx; simpl in E.
  - destruct (rx prev []) as [m'|] eqn:R.
    + injection E as <- <-. exists O. simpl. repeat split; try lia; try exact R.
    + injection E as <- _. congruence.
  - destruct (rx prev (c :: s)) as [m'|] eqn:R.
    + injection E as <- <-. exists O. simpl. repeat split; try lia; try exact R.
    + apply IH in E; [|lia|exact Hidx].
      destruct E as (k & E1 & E2 & E3 & E4).
      exists (S k). simpl. repeat split; try lia.
      * destruct k; exact E3.
      * intros [|j] Hj; [exact R|].
        specialize (E4 j ltac:(lia)). destruct j; exact E4.
Qed.

Lemma searchFrom_none (prev : option ascii) (s : QString) (i : Z) (m : RegMatch) :
  0 <= i ->
  searchFrom rx prev s i = (-1, m) ->
  forall j : nat, (j <= List.length s)%nat -> rx (prevAt prev s j) (skipn j s) = None.
Proof.
  revert prev i. induction s as [|c s IH]; intros prev i Hi E j Hj; simpl in E.
  - destruct (rx prev []) as [m'|] eqn:R.
    + injection E as E _. lia.
    + simpl in Hj. replace j with O by lia. exact R.
  - destruct (rx prev (c :: s)) as [m'|] eqn:R.
    + injection E as E _. lia.
    + destruct j as [|j]; [exact R|].
      specialize (IH (Some c) (i + 1) ltac:(lia) E j ltac:(simpl in Hj; lia)).
      destruct j; exact IH.
Qed.

Lemma charBefore_skipn (s : QString) (from : Z) (k : nat) :
  0 <= from ->
  prevAt (charBefore s from) (skipn (Z.to_nat from) s) k
  = charBefore s (from + Z.of_nat k).
Proof.
  intros Hf. destruct k as [|j]; simpl prevAt.
  - rewrite Z.add_0_r. reflexivity.
  - rewrite nth_error_skipn. unfold charBefore.
    destruct (Z.leb_spec (from + Z.of_nat (S j)) 0); [lia|].
    f_equal. lia.
Qed.

Lemma indexOf_found (s : QString) (from idx : Z) (m : RegMatch) :
  0 <= from <= size s ->
  indexOf s rx from = (idx, m) ->
  idx <> -1 ->
  from <= idx <= size s
  /\ matchAt rx s idx = Some m
  /\ forall j : Z, from <= j < idx -> matchAt rx s j = None.
Proof.
  intros Hf E Hidx. unfold indexOf in E.
  destruct (Z.ltb_spec from 0); [lia|].
  destruct (Z.ltb_spec from 0); [lia|].
  destruct (Z.gtb_spec from (size s)); [lia|]. simpl in E.
  apply searchFrom_found in E; [|lia|exact Hidx].
  destruct E as (k & E1 & E2 & E3 & E4).
  rewrite length_skipn in E2. unfold size in *.
  rewrite charBefore_skipn, skipn_skipn in E3 by lia.
  split; [lia|]. split.
  - unfold matchAt. rewrite E1.
    replace (Z.to_nat (from + Z.of_nat k)) with (k + Z.to_nat from)%nat by lia.
    exact E3.
  - intros j Hj. specialize (E4 (Z.to_nat (j - from)) ltac:(lia)).
    rewrite charBefore_skipn, skipn_skipn in E4 by lia.
    unfold matchAt.
    replace (from + Z.of_nat (Z.to_nat (j - from))) with j in E4 by lia.
    replace (Z.to_nat (j - from) + Z.to_nat from)%nat with (Z.to_nat j) in E4 by lia.
    exact E4.
Qed.

Lemma indexOf_none (s : QString) (from : Z) (m : RegMatch) :
  0 <= from <= size s ->
  indexOf s rx from = (-1, m) ->
  forall j : Z, from <= j <= size s -> matchAt rx s j = None.
Proof.
  intros Hf E j Hj. unfold indexOf in E.
  destruct (Z.ltb_spec from 0); [lia|].
  destruct (Z.ltb_spec from 0); [lia|].
  destruct (Z.gtb_spec from (size s)); [lia|]. simpl in E.
  assert (0 <= from) as Hf0 by lia.
  pose proof (searchFrom_none _ _ _ _ Hf0 E (Z.to_nat (j - from))) as N.
  rewrite length_skipn in N. unfold size in *.
  specialize (N ltac:(lia)).
  rewrite charBefore_skipn, skipn_skipn in N by lia.
  unfold matchAt.
  replace (from + Z.of_nat (Z.to_nat (j - from))) with j in N by lia.
  replace (Z.to_nat (j - from) + Z.to_nat from)%nat with (Z.to_nat j) in N by lia.
  exact N.
Qed.

End SearchFacts.

(** ** One iteration of a scan *)

Section AdvanceFacts.

Lemma replace_inside (s : QString) (idx n : Z) (after : QString) :
  0 <= idx -> 0 <= n -> idx + n <= size s ->
  replace s idx n after
  = firstn (Z.to_nat idx) s ++ after ++ skipn (Z.to_nat (idx + n)) s.
Proof.
  intros Hi Hn Hs. unfold replace.
  destruct (Z.ltb_spec idx 0); [lia|].
  destruct (Z.gtb_spec idx (size s)); [lia|]. simpl.
  replace (Z.to_nat idx + Z.to_nat n)%nat with (Z.to_nat (idx + n)) by lia.
  reflexivity.
Qed.

(** A match that is passed over. *)
Lemma advances_skip (rx : QRegExp) (st : Scan) (idx : Z) (m : RegMatch) (a : bool) :
  0 <= pos st <= idx ->
  matchAt rx (p_html st) idx = Some m ->
  (forall j : Z, pos st <= j < idx -> matchAt rx (p_html st) j = None) ->
  0 < matchedLength m -> idx + matchedLength m <= size (p_html st) ->
  advances rx st {| p_html := p_html st; pos := idx + matchedLength m; altered := a |}.
Proof.
  intros Hp M Hfirst Hm Hs. exists idx, m. cbn [p_html pos].
  split; [lia|]. split; [exact M|]. split; [exact Hfirst|].
  split; [exact Hm|]. split; [exact Hs|].
  split; [left; split; reflexivity|].
  split; [lia|]. split; reflexivity.
Qed.

(** A match that is replaced. *)
Lemma advances_replace (rx : QRegExp) (st : Scan) (idx : Z) (m : RegMatch)
  (newUrl : QString) (a : bool) :
  0 <= pos st <= idx ->
  matchAt rx (p_html st) idx = Some m ->
  (forall j : Z, pos st <= j < idx -> matchAt rx (p_html st) j = None) ->
  0 < matchedLength m -> idx + matchedLength m <= size (p_html st) ->
  0 < size newUrl ->
  advances rx st {| p_html := replace (p_html st) idx (matchedLength m) newUrl;
                    pos := idx + size newUrl; altered := a |}.
Proof.
  intros Hp M Hfirst Hm Hs Hn. exists idx, m. cbn [p_html pos].
  split; [lia|]. split; [exact M|]. split; [exact Hfirst|].
  split; [exact Hm|]. split; [exact Hs|].
  split; [right; exists newUrl; repeat split; exact Hn|].
  rewrite replace_inside by lia.
  assert (List.length (firstn (Z.to_nat idx) (p_html st)) = Z.to_nat idx) as L.
  { rewrite length_firstn. unfold size in Hs. lia. }
  assert (size (firstn (Z.to_nat idx) (p_html st)) = idx) as Lz
    by (unfold size; rewrite L; lia).
  split; [|split].
  - rewrite !size_app, Lz.
    pose proof (size_nonneg (skipn (Z.to_nat (idx + matchedLength m)) (p_html st))).
    lia.
  - rewrite firstn_app, L, Nat.sub_diag. simpl.
    rewrite app_nil_r, firstn_firstn. f_equal. lia.
  - rewrite skipn_app, L.
    rewrite skipn_all2 by lia. simpl.
    rewrite skipn_app.
    replace (Z.to_nat (idx + size newUrl) - Z.to_nat idx)%nat
      with (List.length newUrl) by (unfold size; lia).
    rewrite skipn_all2 by lia. simpl.
    rewrite Nat.sub_diag. reflexivity.
Qed.

(** The cursor of a scan that advances stays inside the string, and the
    text left to scan gets shorter. *)
Lemma advances_measure (rx : QRegExp) (st st' : Scan) :
  0 <= pos st -> advances rx st st' ->
  0 <= pos st' <= size (p_html st')
  /\ (Z.to_nat (size (p_html st') - pos st') < Z.to_nat (size (p_html st) - pos st))%nat.
Proof.
  intros Hp (idx & m & Hi & _ & _ & Hm & Hend & _ & Hpos & _ & Hsuf). split; [lia|].
  apply (f_equal (@List.length ascii)) in Hsuf.
  rewrite !length_skipn in Hsuf. unfold size in *. lia.
Qed.

End AdvanceFacts.

(** ** Loops that end *)

Section LoopFacts.
Context {S : Type}.
Variable body : S -> option S.

(** A loop whose body keeps an invariant and lowers a measure ends
    within as many iterations as the measure allows. *)
Lemma whileLoop_finishes (inv : S -> Prop) (measure : S -> nat) :
  (forall s s', inv s -> body s = Some s' -> inv s' /\ (measure s' < measure s)%nat) ->
  forall (fuel : nat) (s : S),
    inv s -> (measure s < fuel)%nat ->
    exists s', whileLoop body fuel s = Finished s' /\ inv s' /\ body s' = None.
Proof.
  intros Hstep fuel. induction fuel as [|fuel IH]; intros s Hinv Hm; [lia|].
  simpl. destruct (body s) as [s'|] eqn:B.
  - destruct (Hstep s s' Hinv B) as [Hinv' Hlt]. apply IH; [exact Hinv'|lia].
  - exists s. auto.
Qed.

Lemma whileLoop_invariant (inv : S -> Prop) :
  (forall s s', inv s -> body s = Some s' -> inv s') ->
  forall (fuel : nat) (s : S), inv s -> inv (loopState (whileLoop body fuel s)).
Proof.
  intros Hstep fuel. induction fuel as [|fuel IH]; intros s Hinv; [exact Hinv|].
  simpl. destruct (body s) as [s'|] eqn:B; [|exact Hinv].
  apply IH. exact (Hstep s s' Hinv B).
Qed.

(** The result of a loop that ends does not depend on the fuel. *)
Lemma whileLoop_fuel (f1 f2 : nat) (s a b : S) :
  whileLoop body f1 s = Finished a -> whileLoop body f2 s = Finished b -> a = b.
Proof.
  revert f2 s. induction f1 as [|f1 IH]; intros [|f2] s; simpl; try discriminate.
  destruct (body s) as [s'|]; [apply IH|congruence].
Qed.

End LoopFacts.

(** ** The three scans *)

Section ScanFacts.
Context `{Services}.

Lemma match_inside (rx : QRegExp) (s : QString) (idx : Z) (m : RegMatch) :
  (forall prev t m', rx prev t = Some m' ->
     exists rest, t = cap m' 0 ++ rest /\ matchedLength m' = size (cap m' 0)
                  /\ 0 < matchedLength m') ->
  0 <= idx <= size s ->
  matchAt rx s idx = Some m ->
  0 < matchedLength m /\ idx + matchedLength m <= size s.
Proof.
  intros Hrx Hidx M. unfold matchAt in M.
  destruct (Hrx _ _ _ M) as (rest & E & L & P). split; [exact P|].
  apply (f_equal size) in E. rewrite size_app in E.
  unfold size in E at 1. rewrite length_skipn in E.
  pose proof (size_nonneg rest). unfold size in *. lia.
Qed.

Lemma found_inside (rx : QRegExp) (st : Scan) (idx : Z) (m : RegMatch) :
  (forall prev t m', rx prev t = Some m' ->
     exists rest, t = cap m' 0 ++ rest /\ matchedLength m' = size (cap m' 0)
                  /\ 0 < matchedLength m') ->
  0 <= pos st -> (pos st <? size (p_html st)) = true ->
  indexOf (p_html st) rx (pos st) = (idx, m) -> (idx =? -1) = false ->
  0 <= pos st <= idx
  /\ matchAt rx (p_html st) idx = Some m
  /\ (forall j : Z, pos st <= j < idx -> matchAt rx (p_html st) j = None)
  /\ 0 < matchedLength m
  /\ idx + matchedLength m <= size (p_html st).
Proof.
  intros Hrx Hp Hlt E Hidx. apply Z.ltb_lt in Hlt. apply Z.eqb_neq in Hidx.
  assert (0 <= pos st <= size (p_html st)) as Hin by lia.
  destruct (indexOf_found rx _ _ _ _ Hin E Hidx) as (Hi & M & Hfirst).
  assert (0 <= idx <= size (p_html st)) as Hin' by lia.
  destruct (match_inside rx _ _ _ Hrx Hin' M).
  split; [lia|]. split; [exact M|]. split; [exact Hfirst|]. split; assumption.
Qed.

(** A text that starts with a literal is not empty. *)
Ltac size_pos :=
  cbv [qs list_ascii_of_string]; simpl app; rewrite size_cons;
  match goal with |- 0 < 1 + size ?x => pose proof (size_nonneg x); lia end.

Lemma embedStyleIter_advances (w : World) (st st' : Scan) :
  0 <= pos st -> embedStyleIter w st = Some st' -> advances styleUrlRegExp st st'.
Proof.
  intros Hp E. unfold embedStyleIter in E.
  destruct (pos st <? size (p_html st)) eqn:Hlt; [|discriminate].
  destruct (indexOf (p_html st) styleUrlRegExp (pos st)) as [idx reg] eqn:I.
  destruct (idx =? -1) eqn:Hidx; [discriminate|].
  destruct (found_inside _ _ _ _ styleUrlRegExp_prefix Hp Hlt I Hidx) as (A & Mfound & Ffirst & B & C).
  destruct (isEmpty (toDataUri (cap reg 1) false w)); injection E as <-.
  - apply advances_skip; assumption.
  - apply advances_replace; try assumption. size_pos.
Qed.

Lemma embedBodyIter_advances (p_baseUrl : QUrl) (w : World) (st st' : Scan) :
  0 <= pos st -> embedBodyIter p_baseUrl w st = Some st' ->
  advances c_imgRegExp st st'.
Proof.
  intros Hp E. unfold embedBodyIter in E.
  destruct (pos st <? size (p_html st)) eqn:Hlt; [|discriminate].
  destruct (indexOf (p_html st) c_imgRegExp (pos st)) as [idx reg] eqn:I.
  destruct (idx =? -1) eqn:Hidx; [discriminate|].
  destruct (found_inside _ _ _ _ c_imgRegExp_prefix Hp Hlt I Hidx) as (A & Mfound & Ffirst & B & C).
  destruct (isEmpty (cap reg 2)).
  - injection E as <-. apply advances_skip; assumption.
  - destruct (isEmpty (toDataUri (resolved p_baseUrl (cap reg 2)) true w));
      injection E as <-.
    + apply advances_skip; assumption.
    + apply advances_replace; try assumption. size_pos.
Qed.

Lemma fixBodyIter_advances (p_baseUrl : QUrl) (p_folder : QString)
  (st : Scan) (w : World) (st' : Scan) (w' : World) :
  0 <= pos st ->
  fixBodyIter p_baseUrl p_folder (st, w) = Some (st', w') ->
  advances c_imgRegExp st st'.
Proof.
  intros Hp E. unfold fixBodyIter in E.
  destruct (pos st <? size (p_html st)) eqn:Hlt; [|discriminate].
  destruct (indexOf (p_html st) c_imgRegExp (pos st)) as [idx reg] eqn:I.
  destruct (idx =? -1) eqn:Hidx; [discriminate|].
  destruct (found_inside _ _ _ _ c_imgRegExp_prefix Hp Hlt I Hidx) as (A & Mfound & Ffirst & B & C).
  destruct (isEmpty (cap reg 2)).
  - injection E as <- _. apply advances_skip; assumption.
  - destruct (copyResource (resolved p_baseUrl (cap reg 2)) p_folder w)
      as [targetFile w1].
    destruct (isEmpty targetFile); injection E as <- _.
    + apply advances_skip; assumption.
    + apply advances_replace; try assumption. size_pos.
Qed.

Lemma scanFuel_enough (html : QString) (fuel : nat) :
  (scanFuel (scanStart html) <= fuel)%nat ->
  (Z.to_nat (size (p_html (scanStart html)) - pos (scanStart html)) < fuel)%nat.
Proof. unfold scanFuel. lia. Qed.

(** C9.  In each of the three scans every iteration that does not leave
    the loop examines the first match at or after the cursor and puts the
    cursor right after it when it is skipped, right after its replacement
    when it is replaced; what is left to scan is then exactly the old
    text after the match, so neither the segment, nor its replacement,
    nor anything before it is looked at again.  Hence each loop ends, on
    every input, within one iteration per character plus one. *)
Theorem scans_advance_and_terminate :
  (forall (w : World) (st st' : Scan),
      0 <= pos st -> embedStyleIter w st = Some st' ->
      advances styleUrlRegExp st st')
  /\ (forall (p_baseUrl : QUrl) (w : World) (st st' : Scan),
         0 <= pos st -> embedBodyIter p_baseUrl w st = Some st' ->
         advances c_imgRegExp st st')
  /\ (forall (p_baseUrl : QUrl) (p_folder : QString) (st : Scan) (w : World)
             (st' : Scan) (w' : World),
         0 <= pos st ->
         fixBodyIter p_baseUrl p_folder (st, w) = Some (st', w') ->
         advances c_imgRegExp st st')
  /\ (forall (html : QString) (w : World) (fuel : nat),
         (scanFuel (scanStart html) <= fuel)%nat ->
         exists st, whileLoop (embedStyleIter w) fuel (scanStart html) = Finished st
                    /\ embedStyleResources html w = (p_html st, altered st))
  /\ (forall (p_baseUrl : QUrl) (html : QString) (w : World) (fuel : nat),
         (scanFuel (scanStart html) <= fuel)%nat ->
         exists st,
           whileLoop (embedBodyIter p_baseUrl w) fuel (scanStart html) = Finished st
           /\ (isEmpty p_baseUrl = false ->
               embedBodyResources p_baseUrl html w = (p_html st, altered st)))
  /\ (forall (p_baseUrl : QUrl) (p_folder : QString) (html : QString) (w : World)
             (fuel : nat),
         (scanFuel (scanStart html) <= fuel)%nat ->
         exists st w',
           whileLoop (fixBodyIter p_baseUrl p_folder) fuel (scanStart html, w)
           = Finished (st, w')
           /\ (isEmpty p_baseUrl = false ->
               fixBodyResources p_baseUrl p_folder html w
               = (p_html st, altered st, w'))).
Proof.
  split; [exact embedStyleIter_advances|].
  split; [exact embedBodyIter_advances|].
  split; [exact fixBodyIter_advances|].
  assert (forall (rx : QRegExp) (body : Scan -> option Scan),
             (forall st st', 0 <= pos st -> body st = Some st' -> advances rx st st') ->
             forall html fuel,
               (scanFuel (scanStart html) <= fuel)%nat ->
               exists st,
                 whileLoop body fuel (scanStart html) = Finished st
                 /\ loopState (whileLoop body (scanFuel (scanStart html)) (scanStart html))
                    = st) as Ends.
  { intros rx body Hadv html fuel Hfuel.
    assert (forall s s', 0 <= pos s -> body s = Some s' ->
              0 <= pos s'
              /\ (Z.to_nat (size (p_html s') - pos s')
                  < Z.to_nat (size (p_html s) - pos s))%nat) as Hstep.
    { intros s s' Hp B.
      destruct (advances_measure rx s s' Hp (Hadv s s' Hp B)) as [Hin Hlt].
      split; [lia|exact Hlt]. }
    destruct (whileLoop_finishes body _ _ Hstep (scanFuel (scanStart html))
                (scanStart html)) as (st0 & E0 & _); [simpl; lia|unfold scanFuel; lia|].
    destruct (whileLoop_finishes body _ _ Hstep fuel (scanStart html))
      as (st & E & _ & N); [simpl; lia|apply scanFuel_enough; exact Hfuel|].
    exists st. split; [exact E|]. rewrite E0. simpl.
    exact (whileLoop_fuel body _ _ _ _ _ E0 E). }
  split; [|split].
  - intros html w fuel Hfuel.
    destruct (Ends styleUrlRegExp (embedStyleIter w) (embedStyleIter_advances w)
                html fuel Hfuel)
      as (st & E & L).
    exists st. split; [exact E|]. unfold embedStyleResources. rewrite L. reflexivity.
  - intros p_baseUrl html w fuel Hfuel.
    destruct (Ends c_imgRegExp (embedBodyIter p_baseUrl w)
                (embedBodyIter_advances p_baseUrl w) html fuel Hfuel) as (st & E & L).
    exists st. split; [exact E|]. intros Hb.
    unfold embedBodyResources. rewrite Hb, L. reflexivity.
  - intros p_baseUrl p_folder html w fuel Hfuel.
    assert (forall s s' : Scan * World,
              0 <= pos (fst s) -> fixBodyIter p_baseUrl p_folder s = Some s' ->
              0 <= pos (fst s')
              /\ (Z.to_nat (size (p_html (fst s')) - pos (fst s'))
                  < Z.to_nat (size (p_html (fst s)) - pos (fst s)))%nat) as Hstep.
    { intros [s v] [s' v'] Hp B. simpl in Hp |- *.
      destruct (advances_measure c_imgRegExp s s' Hp
                  (fixBodyIter_advances _ _ _ _ _ _ Hp B)) as [Hin Hlt].
      split; [lia|exact Hlt]. }
    destruct (whileLoop_finishes _ _ _ Hstep (scanFuel (scanStart html))
                (scanStart html, w)) as (sw0 & E0 & _);
      [simpl; lia|unfold scanFuel; simpl; lia|].
    destruct (whileLoop_finishes _ _ _ Hstep fuel (scanStart html, w))
      as ([st w'] & E & _ & N);
      [simpl; lia|simpl; apply scanFuel_enough; exact Hfuel|].
    exists st, w'. split; [exact E|]. intros Hb.
    unfold fixBodyResources. rewrite Hb, E0. simpl.
    rewrite (whileLoop_fuel _ _ _ _ _ _ E0 E). reflexivity.
Qed.

(** C10.  With an empty base URL both body scans return false at once:
    the body is returned as it was and the world is not touched. *)
Theorem empty_baseUrl_leaves_body (p_baseUrl : QUrl) (p_folder html : QString)
  (w : World) :
  isEmpty p_baseUrl = true ->
  embedBodyResources p_baseUrl html w = (html, false)
  /\ fixBodyResources p_baseUrl p_folder html w = (html, false, w).
Proof.
  intros Hb. unfold embedBodyResources, fixBodyResources. rewrite Hb.
  split; reflexivity.
Qed.

End ScanFacts.

(** ** The relative path of a copied resource *)

Section RelativePathFacts.
Context `{Services}.

(** For a path with at least two slashes, [getResourceRelativePath] is a
    dot followed by the text from the last but one slash: the parent
    segment and the file name.  The assertion holds. *)
Lemma getResourceRelativePath_two_segments (dir parent name : QString) :
  forallb notSlash parent = true ->
  forallb notSlash name = true ->
  getResourceRelativePath (dir ++ qs "/" ++ parent ++ qs "/" ++ name)
  = qs "./" ++ parent ++ qs "/" ++ name
  /\ getResourceRelativePath_asserts (dir ++ qs "/" ++ parent ++ qs "/" ++ name)
     = true.
Proof.
  intros Hp Hn.
  set (path := dir ++ qs "/" ++ parent ++ qs "/" ++ name).
  assert (size path = size dir + 1 + size parent + 1 + size name) as Hsize.
  { subst path. rewrite !size_app. change (size (qs "/")) with 1. lia. }
  pose proof (size_nonneg dir) as Hd. pose proof (size_nonneg parent) as Hpa.
  pose proof (size_nonneg name) as Hna.
  assert (lastIndexOf path "/"%char (-1) = size dir + 1 + size parent) as Hidx.
  { cbv beta zeta delta [lastIndexOf]. change (-1 <? 0) with true. cbv iota.
    destruct (Z.ltb_spec (-1 + size path) 0); [lia|].
    destruct (Z.leb_spec (size path) (-1 + size path)); [lia|]. cbv iota beta.
    change (false || false) with false. cbv iota.
    rewrite firstn_all2 by (unfold size in *; lia).
    subst path.
    replace (dir ++ qs "/" ++ parent ++ qs "/" ++ name)
      with ((dir ++ qs "/" ++ parent) ++ "/"%char :: name)
      by (flatten_app; reflexivity).
    rewrite lastIdx_app by exact Hn.
    rewrite !size_app. change (size (qs "/")) with 1. lia. }
  assert (lastIndexOf path "/"%char (size dir + 1 + size parent - 1) = size dir)
    as Hidx2.
  { cbv beta zeta delta [lastIndexOf].
    destruct (Z.ltb_spec (size dir + 1 + size parent - 1) 0); [lia|].
    destruct (Z.ltb_spec (size dir + 1 + size parent - 1) 0); [lia|].
    destruct (Z.leb_spec (size path) (size dir + 1 + size parent - 1)); [lia|].
    change (false || false) with false. cbv iota.
    subst path.
    replace (dir ++ qs "/" ++ parent ++ qs "/" ++ name)
      with ((dir ++ "/"%char :: parent) ++ "/"%char :: name)
      by (flatten_app; reflexivity).
    rewrite firstn_app.
    replace (Z.to_nat (size dir + 1 + size parent - 1) + 1)%nat
      with (List.length (dir ++ "/"%char :: parent))
      by (rewrite length_app; simpl List.length; unfold size; lia).
    rewrite firstn_all, Nat.sub_diag. simpl firstn. rewrite app_nil_r.
    apply lastIdx_app. exact Hp. }
  split.
  - unfold getResourceRelativePath. fold path. rewrite Hidx, Hidx2.
    unfold mid.
    destruct (Z.gtb_spec (size dir) (size path)); [lia|].
    destruct (Z.ltb_spec (size dir) 0); [lia|].
    subst path. rewrite skipn_app.
    replace (Z.to_nat (size dir)) with (List.length dir) by (unfold size; lia).
    rewrite skipn_all, Nat.sub_diag. simpl skipn. flatten_app. reflexivity.
  - unfold getResourceRelativePath_asserts. fold path. rewrite Hidx, Hidx2.
    apply andb_true_iff. split; apply Z.ltb_lt; lia.
Qed.

(** C8, as amended.  In an iteration of [fixBodyResources] that goes on
    (an image tag was found), when the copy is reported at a path
    dir/parent/name, the tag is replaced by one whose source is
    ./parent/name, the other attributes being kept. *)
Theorem fixBodyIter_src_relative (p_baseUrl : QUrl) (p_folder : QString)
  (st : Scan) (w : World) (st' : Scan) (w' : World)
  (idx : Z) (reg : RegMatch) (w1 : World) (dir parent name : QString) :
  0 <= pos st ->
  fixBodyIter p_baseUrl p_folder (st, w) = Some (st', w') ->
  indexOf (p_html st) c_imgRegExp (pos st) = (idx, reg) ->
  copyResource (resolved p_baseUrl (cap reg 2)) p_folder w
  = (dir ++ qs "/" ++ parent ++ qs "/" ++ name, w1) ->
  forallb notSlash parent = true ->
  forallb notSlash name = true ->
  getResourceRelativePath (dir ++ qs "/" ++ parent ++ qs "/" ++ name)
  = qs "./" ++ parent ++ qs "/" ++ name
  /\ p_html st'
     = firstn (Z.to_nat idx) (p_html st)
       ++ (qs "<img " ++ cap reg 1 ++ qs "src=" ++ [dquote]
           ++ qs "./" ++ parent ++ qs "/" ++ name
           ++ [dquote] ++ cap reg 3 ++ qs ">")
       ++ skipn (Z.to_nat (idx + matchedLength reg)) (p_html st)
  /\ altered st' = true
  /\ w' = w1.
Proof.
  intros Hpos E I Hcopy Hp Hn.
  destruct (getResourceRelativePath_two_segments dir parent name Hp Hn) as [Hrel _].
  split; [exact Hrel|].
  unfold fixBodyIter in E. rewrite I in E.
  destruct (pos st <? size (p_html st)) eqn:Hlt; [|discriminate].
  destruct (idx =? -1) eqn:Hidx; [discriminate|].
  destruct (found_inside _ _ _ _ c_imgRegExp_prefix Hpos Hlt I Hidx) as (A & Mfound & Ffirst & B & C).
  assert (isEmpty (cap reg 2) = false) as Hsrc.
  { apply Z.ltb_lt in Hlt. apply Z.eqb_neq in Hidx.
    assert (0 <= pos st <= size (p_html st)) as Hin by lia.
    destruct (indexOf_found c_imgRegExp _ _ _ _ Hin I Hidx) as (_ & M & _).
    exact (c_imgRegExp_src _ _ _ M). }
  rewrite Hsrc, Hcopy in E.
  assert (isEmpty (dir ++ qs "/" ++ parent ++ qs "/" ++ name) = false) as Ht
    by (destruct dir; reflexivity).
  rewrite Ht, Hrel in E. injection E as <- <-. simpl.
  rewrite replace_inside by lia.
  split; [|split; reflexivity].
  flatten_app. reflexivity.
Qed.

End RelativePathFacts.

(** ** The style pattern *)

Section StylePatternFacts.

Lemma span_exact (f : ascii -> bool) (a b : QString) :
  forallb f a = true ->
  match b with [] => True | c :: _ => f c = false end ->
  span f (a ++ b) = (a, b).
Proof.
  intros Ha Hb. induction a as [|c a IH]; simpl in *.
  - destruct b as [|c b]; [reflexivity|]. simpl. rewrite Hb. reflexivity.
  - apply andb_true_iff in Ha. destruct Ha as [Hc Ha].
    rewrite Hc, (IH Ha). reflexivity.
Qed.

Lemma size_matchText (url : QString) : size (matchText url) = size url + 8.
Proof.
  unfold matchText. flatten_app. rewrite !size_cons, size_app, !size_cons.
  change (size []) with 0. lia.
Qed.

(** What a match of the style pattern looks like. *)
Lemma styleUrlRegExp_sound (prev : option ascii) (s : QString) (m : RegMatch) :
  styleUrlRegExp prev s = Some m ->
  wordBoundary prev (qs "u") = true
  /\ exists scheme body rest : QString,
       (scheme = qs "file" \/ scheme = qs "qrc")
       /\ isEmpty body = false
       /\ forallb notQuoteParen body = true
       /\ s = matchText (scheme ++ qs ":" ++ body) ++ rest
       /\ m = {| matchedLength := size (matchText (scheme ++ qs ":" ++ body));
                 capturedTexts := [matchText (scheme ++ qs ":" ++ body);
                                   scheme ++ qs ":" ++ body; scheme] |}.
Proof.
  unfold styleUrlRegExp. intros E.
  destruct (wordBoundary prev s) eqn:B; [|discriminate].
  destruct (stripPrefix (qs "url(" ++ [dquote]) s) as [r|] eqn:P1; [|discriminate].
  destruct (fileOrQrc r) as [[scheme r1]|] eqn:P2; [|discriminate].
  destruct (stripPrefix (qs ":") r1) as [r2|] eqn:P3; [|discriminate].
  destruct (span notQuoteParen r2) as [body r3] eqn:P4.
  destruct (isEmpty body) eqn:Ne; [discriminate|].
  destruct (stripPrefix (dquote :: qs ");") r3) as [rest|] eqn:P5; [|discriminate].
  injection E as <-.
  pose proof (span_all _ _ _ _ P4) as Hall.
  apply stripPrefix_Some in P1, P3, P5. apply span_app in P4.
  assert (r = scheme ++ r1 /\ (scheme = qs "file" \/ scheme = qs "qrc")) as [P2' Hs].
  { unfold fileOrQrc in P2.
    destruct (stripPrefix (qs "file") r) as [x|] eqn:F.
    - injection P2 as <- <-. split; [apply stripPrefix_Some; exact F|left; reflexivity].
    - destruct (stripPrefix (qs "qrc") r) as [x|] eqn:Q; [|discriminate].
      injection P2 as <- <-. split; [apply stripPrefix_Some; exact Q|right; reflexivity]. }
  assert (s = matchText (scheme ++ qs ":" ++ body) ++ rest) as Hs'.
  { rewrite P1, P2', P3, P4, P5. unfold matchText. flatten_app. reflexivity. }
  split.
  - rewrite Hs' in B. exact B.
  - exists scheme, body, rest. repeat split; try assumption.
Qed.

(** Every text of that shape is matched, whatever follows it. *)
Lemma styleUrlRegExp_complete (prev : option ascii) (scheme body rest : QString) :
  wordBoundary prev (qs "u") = true ->
  scheme = qs "file" \/ scheme = qs "qrc" ->
  isEmpty body = false ->
  forallb notQuoteParen body = true ->
  styleUrlRegExp prev (matchText (scheme ++ qs ":" ++ body) ++ rest)
  = Some {| matchedLength := size (matchText (scheme ++ qs ":" ++ body));
            capturedTexts := [matchText (scheme ++ qs ":" ++ body);
                              scheme ++ qs ":" ++ body; scheme] |}.
Proof.
  intros B Hs Ne Hall.
  assert (forall tail : QString,
             fileOrQrc (scheme ++ tail) = Some (scheme, tail)) as Hscheme.
  { intros tail. destruct Hs as [-> | ->]; reflexivity. }
  unfold styleUrlRegExp.
  replace (wordBoundary prev (matchText (scheme ++ qs ":" ++ body) ++ rest))
    with true by (symmetry; exact B).
  replace (matchText (scheme ++ qs ":" ++ body) ++ rest)
    with ((qs "url(" ++ [dquote])
          ++ scheme ++ qs ":" ++ body ++ (dquote :: qs ");") ++ rest)
    by (unfold matchText; flatten_app; reflexivity).
  rewrite stripPrefix_app, Hscheme, stripPrefix_app.
  rewrite (span_exact notQuoteParen body ((dquote :: qs ");") ++ rest) Hall)
    by reflexivity.
  rewrite Ne, stripPrefix_app.
  do 3 f_equal; unfold matchText; flatten_app; reflexivity.
Qed.

Lemma app_same_length (a b c d : QString) :
  a ++ b = c ++ d -> List.length a = List.length c -> a = c /\ b = d.
Proof.
  revert c. induction a as [|x a IH]; intros [|y c] E L; simpl in *;
    try discriminate; [split; [reflexivity|exact E]|].
  injection E as -> E. injection L as L.
  destruct (IH c E L) as [-> ->]. split; reflexivity.
Qed.

(** A match depends on its own text only, not on what follows. *)
Lemma styleUrlRegExp_local (prev : option ascii) (t r1 r2 : QString) (m : RegMatch) :
  styleUrlRegExp prev (t ++ r1) = Some m ->
  matchedLength m = size t ->
  styleUrlRegExp prev (t ++ r2) = Some m.
Proof.
  intros E L.
  destruct (styleUrlRegExp_sound _ _ _ E)
    as (B & scheme & body & rest & Hs & Ne & Hall & Es & ->).
  cbn [matchedLength] in L.
  assert (t = matchText (scheme ++ qs ":" ++ body)) as ->.
  { apply (app_same_length _ _ _ _ Es). unfold size in L. lia. }
  apply styleUrlRegExp_complete; assumption.
Qed.

Lemma tail3 (x : QString) (c1 c2 c3 : ascii) :
  nth_error (x ++ [c1; c2; c3]) (List.length x) = Some c1
  /\ nth_error (x ++ [c1; c2; c3]) (List.length x + 1) = Some c2
  /\ nth_error (x ++ [c1; c2; c3]) (List.length x + 2) = Some c3.
Proof.
  repeat split; rewrite nth_error_app2 by lia.
  - rewrite Nat.sub_diag. reflexivity.
  - replace (List.length x + 1 - List.length x)%nat with 1%nat by lia. reflexivity.
  - replace (List.length x + 2 - List.length x)%nat with 2%nat by lia. reflexivity.
Qed.

Lemma nth_error_forallb (f : ascii -> bool) (l : QString) (k : nat) (c : ascii) :
  forallb f l = true -> nth_error l k = Some c -> f c = true.
Proof.
  intros Hl Hk. rewrite forallb_forall in Hl. apply Hl.
  exact (nth_error_In _ _ Hk).
Qed.

(** After a replacement, a match that starts before the end of the new
    text lies wholly before that text: the replacement has no double
    quote to close a match, and its parenthesis cannot be inside one. *)
Lemma match_not_across (a d c : QString) (i : nat) (prev : option ascii)
  (m : RegMatch) :
  forallb notQuote d = true ->
  (i < List.length a + List.length (dataUrl d))%nat ->
  styleUrlRegExp prev (skipn i (a ++ dataUrl d ++ c)) = Some m ->
  (i + Z.to_nat (matchedLength m) <= List.length a)%nat.
Proof.
  intros Hd Hi E.
  destruct (styleUrlRegExp_sound _ _ _ E)
    as (_ & scheme & body & rest & Hs & Ne & Hall & Es & ->).
  cbn [matchedLength].
  set (u := scheme ++ qs ":" ++ body) in *.
  set (wx := qs "url(" ++ [dquote] ++ u).
  set (rx := qs "url('" ++ d).
  assert (matchText u = wx ++ [dquote; ")"%char; ";"%char]) as EW
    by (unfold matchText, wx; flatten_app; reflexivity).
  assert (dataUrl d = rx ++ ["'"%char; ")"%char; ";"%char]) as ER
    by (unfold dataUrl, rx; flatten_app; reflexivity).
  rewrite EW in Es |- *. rewrite ER in Es, Hi.
  set (w := wx ++ [dquote; ")"%char; ";"%char]) in *.
  set (r := rx ++ ["'"%char; ")"%char; ";"%char]) in *.
  set (l := a ++ r ++ c) in *.
  assert (List.length w = (List.length wx + 3)%nat) as Lw
    by (unfold w; rewrite length_app; reflexivity).
  assert (List.length r = (List.length rx + 3)%nat) as Lr
    by (unfold r; rewrite length_app; reflexivity).
  assert (5 <= List.length wx)%nat as Lwx
    by (unfold wx; rewrite !length_app; simpl; lia).
  assert (5 <= List.length rx)%nat as Lrx
    by (unfold rx; rewrite !length_app; simpl; lia).
  replace (Z.to_nat (size w)) with (List.length w) by (unfold size; lia).
  assert (forall k, (k < List.length w)%nat -> nth_error l (i + k) = nth_error w k)
    as HW.
  { intros k Hk. rewrite <- nth_error_skipn, Es. apply nth_error_app1. exact Hk. }
  assert (forall j, (List.length a <= j < List.length a + List.length r)%nat ->
                    nth_error l j = nth_error r (j - List.length a)) as HR.
  { intros j Hj. unfold l. rewrite nth_error_app2 by lia.
    apply nth_error_app1. lia. }
  destruct (tail3 wx dquote ")"%char ";"%char) as (W1 & W2 & W3). fold w in W1, W2, W3.
  destruct (tail3 rx "'"%char ")"%char ";"%char) as (R1 & R2 & R3). fold r in R1, R2, R3.
  assert (forallb notQuote r = true) as Qr.
  { unfold r, rx. rewrite !forallb_app, Hd. reflexivity. }
  assert (forallb notParen wx = true) as Pw.
  { unfold wx, u. rewrite !forallb_app.
    assert (forallb notParen body = true) as ->.
    { apply forallb_forall. intros x Hx. rewrite forallb_forall in Hall.
      specialize (Hall x Hx). unfold notQuoteParen in Hall. unfold notParen.
      apply negb_true_iff in Hall. apply orb_false_iff in Hall.
      rewrite (proj2 Hall). reflexivity. }
    destruct Hs as [-> | ->]; reflexivity. }
  assert (nth_error w 0 = Some "u"%char) as W0 by reflexivity.
  assert (nth_error r 0 = Some "u"%char) as R0 by reflexivity.
  assert (nth_error r 1 = Some "r"%char) as R01 by reflexivity.
  destruct (Nat.le_gt_cases (i + List.length w) (List.length a)) as [Hin|Hout];
    [exact Hin|exfalso].
  destruct (Nat.le_gt_cases (i + List.length w) (List.length a + List.length r))
    as [Hend|Hend].
  - (* the match ends inside the replacement *)
    destruct (Nat.le_gt_cases (List.length a + 3) (i + List.length w)) as [Hq|Hq].
    + (* its closing quote is inside the replacement *)
      pose proof (HW (List.length wx) ltac:(lia)) as K. rewrite W1 in K.
      rewrite HR in K by lia.
      pose proof (nth_error_forallb _ _ _ _ Qr K) as F. discriminate F.
    + (* its semicolon is one of the first two characters *)
      pose proof (HW (List.length wx + 2)%nat ltac:(lia)) as K. rewrite W3 in K.
      rewrite HR in K by lia.
      assert (i + (List.length wx + 2) - List.length a = 0
              \/ i + (List.length wx + 2) - List.length a = 1)%nat as [Z0|Z1] by lia.
      * rewrite Z0, R0 in K. discriminate K.
      * rewrite Z1, R01 in K. discriminate K.
  - (* the match reaches beyond the replacement *)
    destruct (Nat.eq_dec i (List.length a + List.length r - 1)) as [Hlast|Hlast].
    + pose proof (HW 0%nat ltac:(lia)) as K. rewrite W0 in K.
      rewrite HR in K by lia.
      replace (i + 0 - List.length a)%nat with (List.length rx + 2)%nat in K by lia.
      rewrite R3 in K. discriminate K.
    + (* the parenthesis of the replacement is inside the match *)
      set (k := (List.length a + List.length rx + 1 - i)%nat).
      pose proof (HW k ltac:(unfold k; lia)) as K.
      rewrite HR in K by (unfold k; lia).
      replace (i + k - List.length a)%nat with (List.length rx + 1)%nat in K
        by (unfold k; lia).
      rewrite R2 in K.
      destruct (Nat.eq_dec k (List.length wx)) as [Hk|Hk].
      * rewrite Hk, W1 in K. discriminate K.
      * assert (nth_error w k = nth_error wx k) as Kx
          by (unfold w; apply nth_error_app1; unfold k in *; lia).
        rewrite Kx in K. symmetry in K.
        pose proof (nth_error_forallb _ _ _ _ Pw K) as F. discriminate F.
Qed.

End StylePatternFacts.

(** ** embedStyleResources with a converter that never fails *)

Section EmbedStyleFacts.
Context `{Services}.

Lemma app_prefix (x y t z : QString) :
  x ++ y = t ++ z -> (List.length t <= List.length x)%nat ->
  exists x2 : QString, x = t ++ x2 /\ z = x2 ++ y.
Proof.
  revert x. induction t as [|b t IH]; intros x E L; simpl in *.
  - exists x. split; [reflexivity|symmetry; exact E].
  - destruct x as [|a x]; simpl in *; [lia|].
    injection E as -> E. destruct (IH x E ltac:(lia)) as (x2 & -> & ->).
    exists x2. split; reflexivity.
Qed.

Lemma startsWith_app (p b : QString) : startsWith p (p ++ b) = true.
Proof.
  induction p as [|c p IH]; simpl; [reflexivity|].
  rewrite Ascii.eqb_refl. exact IH.
Qed.

Lemma contains_startsWith (s p : QString) :
  startsWith p s = true -> contains s p = true.
Proof. intros E. destruct s; simpl; rewrite E; reflexivity. Qed.

Lemma contains_app (a p b : QString) : contains (a ++ p ++ b) p = true.
Proof.
  induction a as [|c a IH].
  - simpl app. apply contains_startsWith. apply startsWith_app.
  - simpl. rewrite IH. apply orb_true_r.
Qed.

Lemma charBefore_firstn (s tail : QString) (idx i : Z) :
  0 <= i <= idx -> idx <= size s ->
  charBefore (firstn (Z.to_nat idx) s ++ tail) i = charBefore s i.
Proof.
  intros Hi Hidx. unfold charBefore.
  destruct (Z.leb_spec i 0); [reflexivity|].
  rewrite nth_error_app1
    by (rewrite length_firstn; unfold size in Hidx; lia).
  rewrite nth_error_firstn.
  destruct (Nat.ltb_spec (Z.to_nat (i - 1)) (Z.to_nat idx)); [reflexivity|lia].
Qed.

(** A replacement leaves no match before the new cursor, when the data
    URI has no double quote in it. *)
Lemma replace_noMatchBefore (st : Scan) (idx : Z) (reg : RegMatch)
  (dataURI : QString) (a : bool) :
  forallb notQuote dataURI = true ->
  0 <= pos st <= size (p_html st) ->
  noMatchBefore st ->
  indexOf (p_html st) styleUrlRegExp (pos st) = (idx, reg) ->
  idx <> -1 ->
  noMatchBefore
    {| p_html := replace (p_html st) idx (matchedLength reg) (dataUrl dataURI);
       pos := idx + size (dataUrl dataURI); altered := a |}.
Proof.
  intros Hd Hpos Hno I Hidx.
  destruct (indexOf_found styleUrlRegExp _ _ _ _ Hpos I Hidx) as (Hi & M & Hleft).
  assert (0 <= idx <= size (p_html st)) as Hi' by lia.
  destruct (match_inside styleUrlRegExp _ _ _ styleUrlRegExp_prefix Hi' M)
    as (Hm & Hend).
  unfold noMatchBefore. cbn [p_html pos]. intros i Hrange.
  rewrite replace_inside by lia.
  set (front := firstn (Z.to_nat idx) (p_html st)).
  set (back := skipn (Z.to_nat (idx + matchedLength reg)) (p_html st)).
  assert (List.length front = Z.to_nat idx) as Lfront
    by (unfold front; rewrite length_firstn; unfold size in Hi'; lia).
  destruct (matchAt styleUrlRegExp (front ++ dataUrl dataURI ++ back) i)
    as [m'|] eqn:M'; [exfalso|reflexivity].
  unfold matchAt in M'.
  assert (Z.to_nat i + Z.to_nat (matchedLength m') <= List.length front)%nat as Hin.
  { apply (match_not_across front dataURI back (Z.to_nat i)
             (charBefore (front ++ dataUrl dataURI ++ back) i) m' Hd);
      [unfold size in Hrange; lia|exact M']. }
  destruct (styleUrlRegExp_prefix _ _ _ M') as (rest' & Es & L & P).
  assert (i < idx) as Hlt by lia.
  rewrite skipn_app in Es.
  replace (Z.to_nat i - List.length front)%nat with 0%nat in Es by lia.
  simpl skipn in Es.
  destruct (app_prefix _ _ _ _ Es) as (front2 & Ef & _).
  { rewrite length_skipn. unfold size in L. lia. }
  assert (skipn (Z.to_nat i) (p_html st)
          = cap m' 0 ++ front2 ++ skipn (Z.to_nat idx) (p_html st)) as Eold.
  { rewrite <- (firstn_skipn (Z.to_nat idx) (p_html st)) at 1.
    fold front. rewrite skipn_app.
    replace (Z.to_nat i - List.length front)%nat with 0%nat by lia.
    simpl skipn. rewrite Ef, <- app_assoc. reflexivity. }
  assert (matchAt styleUrlRegExp (p_html st) i = Some m') as Mold.
  { unfold matchAt. rewrite Eold.
    rewrite skipn_app in M'.
    replace (Z.to_nat i - List.length front)%nat with 0%nat in M' by lia.
    simpl skipn in M'. rewrite Ef, <- app_assoc in M'.
    unfold front in M'. rewrite charBefore_firstn in M' by lia.
    exact (styleUrlRegExp_local _ _ _ _ _ M' L). }
  destruct (Z.lt_ge_cases i (pos st)) as [Hbefore|Hafter].
  - rewrite (Hno i) in Mold by lia. discriminate Mold.
  - rewrite (Hleft i) in Mold by lia. discriminate Mold.
Qed.

(** When the loop is left, no match is ahead of the cursor either. *)
Lemma embedStyleIter_None (w : World) (st : Scan) :
  0 <= pos st <= size (p_html st) ->
  noMatchBefore st ->
  embedStyleIter w st = None ->
  forall i : Z, 0 <= i <= size (p_html st) ->
                matchAt styleUrlRegExp (p_html st) i = None.
Proof.
  intros Hpos Hno E i Hi. unfold embedStyleIter in E.
  destruct (Z.ltb_spec (pos st) (size (p_html st))) as [Hlt|Hge].
  - destruct (indexOf (p_html st) styleUrlRegExp (pos st)) as [idx reg] eqn:I.
    destruct (Z.eqb_spec idx (-1)) as [->|Hidx].
    + destruct (Z.lt_ge_cases i (pos st)) as [Hb|Ha]; [apply Hno; lia|].
      apply (indexOf_none styleUrlRegExp _ _ _ Hpos I). lia.
    + destruct (isEmpty (toDataUri (cap reg 1) false w)); discriminate E.
  - destruct (Z.lt_ge_cases i (pos st)) as [Hb|Ha]; [apply Hno; lia|].
    unfold matchAt. rewrite skipn_all2 by (unfold size in *; lia).
    unfold styleUrlRegExp. destruct (wordBoundary _ _); reflexivity.
Qed.

(** A text in which the pattern matches nowhere is left as it is, and
    false is returned: the first search fails and the loop is left. *)
Lemma embedStyleResources_no_match (html : QString) (w : World) :
  (forall i : Z, 0 <= i <= size html -> matchAt styleUrlRegExp html i = None) ->
  embedStyleResources html w = (html, false).
Proof.
  intros Hno.
  assert (embedStyleIter w (scanStart html) = None) as N.
  { unfold embedStyleIter. cbn [scanStart pos p_html].
    destruct (0 <? size html) eqn:Hlt; [|reflexivity].
    destruct (indexOf html styleUrlRegExp 0) as [idx reg] eqn:I.
    destruct (Z.eqb_spec idx (-1)) as [|Hidx]; [reflexivity|exfalso].
    pose proof (size_nonneg html) as Hsz.
    assert (0 <= 0 <= size html) as H0 by lia.
    destruct (indexOf_found styleUrlRegExp html 0 idx reg H0 I Hidx) as (Hi & M & _).
    rewrite Hno in M by lia. discriminate M. }
  unfold embedStyleResources, scanFuel. cbn [whileLoop]. rewrite N. reflexivity.
Qed.

(** Every match of the pattern ends in a double quote, a closing
    parenthesis and a semicolon: a text without these three characters
    in a row has no match. *)
Lemma no_tail_no_match (html : QString) :
  contains html (dquote :: qs ");") = false ->
  forall i : Z, 0 <= i <= size html -> matchAt styleUrlRegExp html i = None.
Proof.
  intros Hc i Hi.
  destruct (matchAt styleUrlRegExp html i) as [m|] eqn:M; [exfalso|reflexivity].
  unfold matchAt in M.
  destruct (styleUrlRegExp_sound _ _ _ M) as (_ & scheme & body & rest & _ & _ & _ & Es & _).
  assert (html = (firstn (Z.to_nat i) html ++ qs "url(" ++ [dquote]
                  ++ scheme ++ qs ":" ++ body)
                 ++ (dquote :: qs ");") ++ rest) as Eh.
  { rewrite <- (firstn_skipn (Z.to_nat i) html) at 1. rewrite Es.
    unfold matchText. flatten_app. reflexivity. }
  rewrite Eh, contains_app in Hc. discriminate Hc.
Qed.

(** C7, as amended.  When the style content holds the quoted url of
    file:///a/b.png followed by the semicolon that the pattern asks for,
    and not right after a word character, and the converter yields DATA
    for every URL, then [embedStyleResources] returns true, its output
    contains the replacement with its semicolon, and the pattern has no
    match left in the output.  With the same converter, a style content
    in which the pattern matches nowhere is returned as it is, and false
    is returned; such is every content that nowhere has a double quote,
    a closing parenthesis and a semicolon in a row, as when the semicolon
    after the url is missing. *)
Theorem embedStyleResources_replaces_url (pre post : QString) (w : World) :
  (forall (u : QUrl) (b : bool) (w' : World), toDataUri u b w' = qs "DATA") ->
  endsInWordChar pre = false ->
  snd (embedStyleResources
         (pre ++ cssUrl (qs "file:///a/b.png") ++ qs ";" ++ post) w) = true
  /\ contains
       (fst (embedStyleResources
               (pre ++ cssUrl (qs "file:///a/b.png") ++ qs ";" ++ post) w))
       (qs "url('DATA');") = true
  /\ (forall i : Z,
       0 <= i <= size (fst (embedStyleResources
                              (pre ++ cssUrl (qs "file:///a/b.png") ++ qs ";" ++ post) w)) ->
       matchAt styleUrlRegExp
         (fst (embedStyleResources
                 (pre ++ cssUrl (qs "file:///a/b.png") ++ qs ";" ++ post) w)) i
       = None)
  /\ (forall html : QString,
         (forall i : Z, 0 <= i <= size html -> matchAt styleUrlRegExp html i = None) ->
         embedStyleResources html w = (html, false))
  /\ (forall html : QString,
         contains html (dquote :: qs ");") = false ->
         embedStyleResources html w = (html, false)).
Proof.
  intros Hconv Hpre.
  assert (forall html : QString,
             (forall i : Z, 0 <= i <= size html ->
                            matchAt styleUrlRegExp html i = None) ->
             embedStyleResources html w = (html, false)) as Hkeep
    by (intros html Hno; apply embedStyleResources_no_match; exact Hno).
  assert (forall html : QString,
             contains html (dquote :: qs ");") = false ->
             embedStyleResources html w = (html, false)) as Htail
    by (intros html Hc; apply Hkeep, no_tail_no_match; exact Hc).
  set (html0 := pre ++ cssUrl (qs "file:///a/b.png") ++ qs ";" ++ post).
  (* the url is matched where it stands *)
  assert (exists m0, matchAt styleUrlRegExp html0 (size pre) = Some m0) as [m0 M0].
  { eexists. unfold matchAt.
    assert (charBefore html0 (size pre) = lastChar pre) as ->.
    { unfold charBefore, lastChar, html0, size.
      destruct pre as [|c pre']; [reflexivity|].
      destruct (Z.leb_spec (Z.of_nat (List.length (c :: pre'))) 0);
        [simpl List.length in *; lia|].
      rewrite nth_error_app1 by (simpl List.length; lia).
      f_equal. simpl List.length. lia. }
    assert (skipn (Z.to_nat (size pre)) html0
            = matchText (qs "file" ++ qs ":" ++ qs "///a/b.png") ++ post) as ->.
    { unfold html0, size. rewrite Nat2Z.id, skipn_app, skipn_all, Nat.sub_diag.
      unfold cssUrl, matchText. flatten_app. reflexivity. }
    apply styleUrlRegExp_complete; try reflexivity; [|left; reflexivity].
    unfold wordBoundary. unfold endsInWordChar in Hpre.
    destruct (lastChar pre); [rewrite Hpre|]; reflexivity. }
  (* the invariant of the loop *)
  set (inv := fun st : Scan =>
                0 <= pos st <= size (p_html st)
                /\ noMatchBefore st
                /\ (altered st = true -> contains (p_html st) (dataUrl (qs "DATA")) = true)
                /\ (altered st = false -> p_html st = html0)).
  assert (forall s s', inv s -> embedStyleIter w s = Some s' ->
            inv s'
            /\ (Z.to_nat (size (p_html s') - pos s')
                < Z.to_nat (size (p_html s) - pos s))%nat) as Hstep.
  { intros s s' (Hpos & Hno & Hc & Hu) E.
    pose proof (embedStyleIter_advances w s s' (proj1 Hpos) E) as Hadv.
    destruct (advances_measure _ s s' (proj1 Hpos) Hadv) as [Hpos' Hlt].
    split; [|exact Hlt].
    unfold embedStyleIter in E.
    destruct (pos s <? size (p_html s)) eqn:Hcond; [|discriminate].
    destruct (indexOf (p_html s) styleUrlRegExp (pos s)) as [idx reg] eqn:I.
    destruct (Z.eqb_spec idx (-1)) as [|Hidx]; [discriminate|].
    rewrite Hconv in E.
    change (qs "url('" ++ qs "DATA" ++ qs "');") with (dataUrl (qs "DATA")) in E.
    change (isEmpty (qs "DATA")) with false in E. cbv iota in E.
    injection E as <-.
    assert (0 <= idx <= size (p_html s)
            /\ 0 < matchedLength reg /\ idx + matchedLength reg <= size (p_html s))
      as (Hi & Hm & Hend).
    { destruct (indexOf_found styleUrlRegExp _ _ _ _ Hpos I Hidx) as (Hi & M & _).
      assert (0 <= idx <= size (p_html s)) as Hi' by lia.
      destruct (match_inside styleUrlRegExp _ _ _ styleUrlRegExp_prefix Hi' M).
      lia. }
    split; [|split; [|split]].
    - exact Hpos'.
    - apply replace_noMatchBefore; try assumption. reflexivity.
    - intros _. cbn [p_html]. rewrite replace_inside by lia. apply contains_app.
    - cbn [altered]. discriminate. }
  assert (inv (scanStart html0)) as Hinit.
  { unfold inv, scanStart, noMatchBefore. cbn [pos p_html altered].
    pose proof (size_nonneg html0).
    split; [lia|]. split; [intros i Hi; lia|]. split; [discriminate|reflexivity]. }
  destruct (whileLoop_finishes (embedStyleIter w) inv _ Hstep
              (scanFuel (scanStart html0)) (scanStart html0) Hinit)
    as (st & Eloop & (Hpos & Hno & Hc & Hu) & Hnone); [unfold scanFuel; lia|].
  assert (embedStyleResources html0 w = (p_html st, altered st)) as ->.
  { unfold embedStyleResources. rewrite Eloop. reflexivity. }
  cbn [fst snd].
  pose proof (embedStyleIter_None w st Hpos Hno Hnone) as Hall.
  assert (altered st = true) as Halt.
  { destruct (altered st) eqn:A; [reflexivity|exfalso].
    rewrite (Hu eq_refl) in Hall.
    rewrite Hall in M0; [discriminate M0|].
    pose proof (size_nonneg pre). unfold html0. rewrite size_app.
    match goal with |- context [size (cssUrl ?x ++ ?y)] =>
      pose proof (size_nonneg (cssUrl x ++ y)) end. lia. }
  split; [exact Halt|]. split; [exact (Hc Halt)|].
  split; [exact Hall|]. split; [exact Hkeep|exact Htail].
Qed.

End EmbedStyleFacts.

(** ** What an export leaves alone *)

Section FrameFacts.
Context `{WebViewState} `{Services}.

Lemma sameExport_refl (e : Exporter) : sameExport e e.
Proof. repeat split. Qed.

Lemma sameExport_trans (e1 e2 e3 : Exporter) :
  sameExport e1 e2 -> sameExport e2 e3 -> sameExport e1 e3.
Proof.
  intros (A1 & A2 & A3 & A4 & A5) (B1 & B2 & B3 & B4 & B5).
  repeat split; congruence.
Qed.

Lemma deliver_other_same (e : Exporter) (ev : Event) :
  isContentReady ev = false -> sameExport (deliver e ev) e.
Proof. destruct ev; intros E; try discriminate; repeat split. Qed.

Lemma deliver_disconnected_same (e : Exporter) (ev : Event) :
  contentReadyConnection e = None -> sameExport (deliver e ev) e.
Proof. intros Hc. destruct ev; simpl; rewrite ?Hc; repeat split. Qed.

Lemma deliverAll_other_same (evs : list Event) (e : Exporter) :
  noContent evs -> sameExport (deliverAll evs e) e.
Proof.
  revert e. unfold deliverAll.
  induction evs as [|ev evs IH]; intros e Hevs; simpl; [apply sameExport_refl|].
  apply (sameExport_trans _ (deliver e ev)).
  - apply IH. intros x Hx. apply Hevs. right. exact Hx.
  - apply deliver_other_same. apply Hevs. left. reflexivity.
Qed.

Lemma deliverAll_disconnected_same (evs : list Event) (e : Exporter) :
  contentReadyConnection e = None -> sameExport (deliverAll evs e) e.
Proof.
  revert e. unfold deliverAll.
  induction evs as [|ev evs IH]; intros e Hc; simpl; [apply sameExport_refl|].
  pose proof (deliver_disconnected_same e ev Hc) as S1.
  apply (sameExport_trans _ (deliver e ev)); [|exact S1].
  apply IH. destruct S1 as (_ & -> & _). exact Hc.
Qed.

Lemma noStop_askedToStop (evs : list Event) (e : Exporter) :
  noStop evs -> m_askedToStop (deliverAll evs e) = m_askedToStop e.
Proof.
  intros Hs. rewrite askedToStop_deliverAll.
  destruct (existsb isStop evs) eqn:E; [|apply orb_false_r].
  apply existsb_isStop in E. contradiction.
Qed.

(** The document written depends on the exporter through its export
    template and its world only. *)
Lemma writeHtmlFile_world f b h s body es cp ei (e1 e2 : Exporter) :
  m_exportHtmlTemplate e1 = m_exportHtmlTemplate e2 ->
  world e1 = world e2 ->
  world (snd (writeHtmlFile f b h s body es cp ei e1))
  = world (snd (writeHtmlFile f b h s body es cp ei e2)).
Proof.
  intros Ht Hw. unfold writeHtmlFile, assembleHtml. cbn [record world m_exportHtmlTemplate].
  rewrite Ht, Hw.
  destruct cp; [destruct ei|]; cbn [fst snd];
    try destruct (fixBodyResources _ _ _ _) as [[bodyContent a] w'];
    reflexivity.
Qed.

End FrameFacts.

(** ** The content handler *)

Section HandlerFacts.
Context `{WebViewState} `{Services}.

Lemma deliver_phase (job : HtmlJob) (base : list Call) (e : Exporter) (ev : Event) :
  handlerPhase job base e -> handlerPhase job base (deliver e ev).
Proof.
  intros [(S0 & C0 & K0)|[(S0 & C0 & K0)|(S0 & C0 & K0)]].
  - destruct (isContentReady ev) eqn:Ev.
    + destruct ev as [| | |h s b]; try discriminate. simpl. rewrite C0.
      destruct (onContentReady_effect job h s b e) as [[E _]|[w' [E _]]]; rewrite E.
      * right. left. repeat split. exact K0.
      * right. right. repeat split. simpl. rewrite K0. reflexivity.
    + destruct (deliver_other_same e ev Ev) as (A1 & A2 & A3 & _).
      left. rewrite A1, A2, A3. repeat split; assumption.
  - destruct (deliver_disconnected_same e ev C0) as (A1 & A2 & A3 & _).
    right. left. rewrite A1, A2, A3. repeat split; assumption.
  - destruct (deliver_disconnected_same e ev C0) as (A1 & A2 & A3 & _).
    right. right. rewrite A1, A2, A3. repeat split; assumption.
Qed.

Lemma deliverAll_phase (job : HtmlJob) (base : list Call) (evs : list Event)
  (e : Exporter) :
  handlerPhase job base e -> handlerPhase job base (deliverAll evs e).
Proof.
  revert e. unfold deliverAll.
  induction evs as [|ev evs IH]; intros e P; simpl; [exact P|].
  apply IH, deliver_phase, P.
Qed.

(** The content loop is left in one of the three phases, and with
    [state] still 0 only when [stop] was called. *)
Lemma contentLoop_phase (job : HtmlJob) (base : list Call) (sched : Schedule)
  (e e' : Exporter) (rest : Schedule) :
  handlerPhase job base e ->
  contentLoop sched e = Some (e', rest) ->
  handlerPhase job base e' /\ (state e' <> 0 \/ m_askedToStop e' = true).
Proof.
  revert e. induction sched as [|b sched IH]; intros e P L; simpl in L.
  - destruct (Z.eqb_spec (state e) 0) as [|Hs].
    + destruct (m_askedToStop e) eqn:St; [|discriminate].
      injection L as <- <-. split; [exact P|right; exact St].
    + injection L as <- <-. split; [exact P|left; exact Hs].
  - destruct (Z.eqb_spec (state e) 0) as [|Hs].
    + destruct (m_askedToStop (deliverAll b e)) eqn:St.
      * injection L as <- <-. split; [apply deliverAll_phase, P|right; exact St].
      * apply (IH (deliverAll b e)); [apply deliverAll_phase, P|exact L].
    + injection L as <- <-. split; [exact P|left; exact Hs].
Qed.

Lemma doExportHtml_phase (p_htmlOption : ExportHtmlOption) (p_outputFile : QString)
  (p_baseUrl : QUrl) (e : Exporter) :
  handlerPhase
    {| job_option := p_htmlOption; job_outputFile := p_outputFile;
       job_baseUrl := p_baseUrl |}
    (calls e ++ [CallDoExportHtml; CallSaveContent])
    (record CallSaveContent
       (set_connection
          (Some {| job_option := p_htmlOption; job_outputFile := p_outputFile;
                   job_baseUrl := p_baseUrl |})
          (set_state 0 (record CallDoExportHtml e)))).
Proof.
  left. repeat split. simpl. rewrite <- app_assoc. reflexivity.
Qed.

(** X1.  Whenever [doExportHtml] returns, it returns true exactly when
    [writeHtmlFile] was entered, which happens once and for the output
    file; when it returns false [writeHtmlFile] was not entered.  The
    handler is still connected on return only if [stop] ended the wait
    before any [contentReady] came. *)
Theorem doExportHtml_true_iff_written (p_htmlOption : ExportHtmlOption)
  (p_outputFile : QString) (p_baseUrl : QUrl) (sched : Schedule)
  (e : Exporter) (ret : bool) (e' : Exporter) (rest : Schedule) :
  doExportHtml p_htmlOption p_outputFile p_baseUrl sched e = Returned ret e' rest ->
  (ret = true
   /\ calls e'
      = calls e ++ [CallDoExportHtml; CallSaveContent; CallWriteHtmlFile p_outputFile]
   /\ contentReadyConnection e' = None)
  \/ (ret = false
      /\ calls e' = calls e ++ [CallDoExportHtml; CallSaveContent]
      /\ (contentReadyConnection e' = None \/ m_askedToStop e' = true)).
Proof.
  unfold doExportHtml. intros E.
  pose proof (doExportHtml_phase p_htmlOption p_outputFile p_baseUrl e) as P0.
  destruct (contentLoop sched _) as [[e1 rest1]|] eqn:L; [|discriminate].
  injection E as <- <- <-.
  destruct (contentLoop_phase _ _ _ _ _ _ P0 L)
    as ([(S0 & C0 & K0)|[(S0 & C0 & K0)|(S0 & C0 & K0)]] & Hleft).
  - right. rewrite S0. split; [reflexivity|]. split; [exact K0|].
    right. destruct Hleft as [Hs|Hs]; [contradiction|exact Hs].
  - right. rewrite S0. split; [reflexivity|]. split; [exact K0|]. left. exact C0.
  - left. rewrite S0. split; [reflexivity|]. split; [|exact C0].
    rewrite K0. simpl. rewrite <- app_assoc. reflexivity.
Qed.

(** With [stop] already called, the handler can only fail. *)
Lemma deliverAll_stopped (job : HtmlJob) (base : list Call) (evs : list Event)
  (e : Exporter) :
  m_askedToStop e = true ->
  (state e = 0 \/ state e = -1) -> calls e = base ->
  (state (deliverAll evs e) = 0 \/ state (deliverAll evs e) = -1)
  /\ calls (deliverAll evs e) = base.
Proof.
  revert e. unfold deliverAll.
  induction evs as [|ev evs IH]; intros e St S0 K0; simpl; [split; assumption|].
  assert (m_askedToStop (deliver e ev) = true) as St'
    by (rewrite askedToStop_deliver, St; reflexivity).
  assert ((state (deliver e ev) = 0 \/ state (deliver e ev) = -1)
          /\ calls (deliver e ev) = base) as [S1 K1].
  { destruct ev as [| | |h s b]; simpl; try (split; assumption).
    destruct (contentReadyConnection e) as [j|]; [|split; assumption].
    destruct (onContentReady_effect j h s b e) as [[E _]|[w' [_ E]]].
    - rewrite E. split; [right; reflexivity|exact K0].
    - rewrite St, orb_true_r in E. discriminate E. }
  apply IH; assumption.
Qed.

(** X2.  When [stop] was called before [doExportHtml] starts to wait (as
    during the settle delay of [doExport]), it returns false after its
    first wait, whatever that wait delivers (nothing at all on a used-up
    schedule): [writeHtmlFile] is not entered even if the content
    arrives during that wait. *)
Theorem doExportHtml_stop_pending (p_htmlOption : ExportHtmlOption)
  (p_outputFile : QString) (p_baseUrl : QUrl) (sched : Schedule) (e : Exporter) :
  m_askedToStop e = true ->
  exists e' : Exporter,
    doExportHtml p_htmlOption p_outputFile p_baseUrl sched e
    = Returned false e' (tl sched)
    /\ calls e' = calls e ++ [CallDoExportHtml; CallSaveContent].
Proof.
  intros St. unfold doExportHtml.
  set (e0 := record CallSaveContent _).
  destruct sched as [|batch post].
  { exists e0. split.
    - change (contentLoop [] e0)
        with (if m_askedToStop e0 then Some (e0, @nil (list Event)) else None).
      replace (m_askedToStop e0) with true by (subst e0; simpl; symmetry; exact St).
      reflexivity.
    - subst e0. simpl. rewrite <- app_assoc. reflexivity. }
  cbn [tl].
  destruct (deliverAll_stopped
              {| job_option := p_htmlOption; job_outputFile := p_outputFile;
                 job_baseUrl := p_baseUrl |}
              (calls e ++ [CallDoExportHtml; CallSaveContent]) batch e0)
    as [S1 K1].
  - exact St.
  - left. reflexivity.
  - subst e0. simpl. rewrite <- app_assoc. reflexivity.
  - assert (m_askedToStop (deliverAll batch e0) = true) as St'
      by (rewrite askedToStop_deliverAll; subst e0; simpl; rewrite St; reflexivity).
    change (contentLoop (batch :: post) e0)
      with (if m_askedToStop (deliverAll batch e0)
            then Some (deliverAll batch e0, post)
            else contentLoop post (deliverAll batch e0)).
    rewrite St'. exists (deliverAll batch e0). split; [|exact K1].
    destruct S1 as [-> | ->]; reflexivity.
Qed.

(** The content loop when the first [contentReady] carries a body and no
    [stop] came before it. *)
Lemma contentLoop_success (job : HtmlJob) (pre : Schedule) (evs1 : list Event)
  (h s body : QString) (evs2 : list Event) (post : Schedule) (e : Exporter) :
  state e = 0 ->
  contentReadyConnection e = Some job ->
  m_askedToStop e = false ->
  (forall b, In b pre -> noStop b /\ noContent b) ->
  noStop evs1 -> noContent evs1 ->
  isEmpty body = false ->
  exists e' : Exporter,
    contentLoop (pre ++ (evs1 ++ EvContentReady h s body :: evs2) :: post) e
    = Some (e', post)
    /\ state e' = 1
    /\ calls e' = calls e ++ [CallWriteHtmlFile (job_outputFile job)]
    /\ world e'
       = world (snd (writeHtmlFile (job_outputFile job) (job_baseUrl job) h s body
                       (m_embedStyles (job_option job))
                       (m_completePage (job_option job))
                       (m_embedImages (job_option job)) e)).
Proof.
  revert e. induction pre as [|b pre IH]; intros e S0 C0 St Hpre Hs1 Hc1 Hbody.
  - simpl app. simpl contentLoop. rewrite S0. simpl.
    rewrite deliverAll_app.
    destruct (deliverAll_other_same evs1 e Hc1) as (A1 & A2 & A3 & A4 & A5).
    pose proof (noStop_askedToStop evs1 e Hs1) as St1. rewrite St in St1.
    set (e1 := deliverAll evs1 e) in *.
    change (deliverAll (EvContentReady h s body :: evs2) e1)
      with (deliverAll evs2 (deliver e1 (EvContentReady h s body))).
    set (e2 := deliver e1 (EvContentReady h s body)).
    assert (state e2 = 1 /\ contentReadyConnection e2 = None
            /\ calls e2 = calls e ++ [CallWriteHtmlFile (job_outputFile job)]
            /\ world e2
               = world (snd (writeHtmlFile (job_outputFile job) (job_baseUrl job)
                               h s body (m_embedStyles (job_option job))
                               (m_completePage (job_option job))
                               (m_embedImages (job_option job)) e)))
      as (S2 & C2 & K2 & W2).
    { subst e2. simpl. rewrite A2, C0. unfold onContentReady.
      change (m_askedToStop (set_connection None e1)) with (m_askedToStop e1).
      rewrite Hbody, St1. simpl.
      rewrite <- (writeHtmlFile_world (job_outputFile job) (job_baseUrl job) h s body
                    (m_embedStyles (job_option job)) (m_completePage (job_option job))
                    (m_embedImages (job_option job)) (set_connection None e1) e)
        by (simpl; assumption).
      destruct (writeHtmlFile_effect (job_outputFile job) (job_baseUrl job) h s body
                  (m_embedStyles (job_option job)) (m_completePage (job_option job))
                  (m_embedImages (job_option job)) (set_connection None e1))
        as [w' E].
      rewrite E. simpl. rewrite A3. repeat split. }
    destruct (deliverAll_disconnected_same evs2 e2 C2) as (B1 & B2 & B3 & B4 & B5).
    set (e3 := deliverAll evs2 e2) in *.
    exists e3. split.
    + destruct (m_askedToStop e3); [reflexivity|].
      apply contentLoop_left. rewrite B1, S2. discriminate.
    + rewrite B1, B3, B4. repeat split; assumption.
  - destruct (Hpre b (or_introl eq_refl)) as [Hsb Hcb].
    simpl app. simpl contentLoop. rewrite S0. simpl.
    destruct (deliverAll_other_same b e Hcb) as (A1 & A2 & A3 & A4 & A5).
    pose proof (noStop_askedToStop b e Hsb) as St1. rewrite St in St1.
    rewrite St1.
    destruct (IH (deliverAll b e)) as (e' & L & S1 & K1 & W1); try assumption.
    + rewrite A1. exact S0.
    + rewrite A2. exact C0.
    + intros b' Hb'. apply Hpre. right. exact Hb'.
    + exists e'. split; [exact L|]. split; [exact S1|]. split.
      * rewrite K1, A3. reflexivity.
      * rewrite W1. apply writeHtmlFile_world; assumption.
Qed.

(** X3.  When no [stop] was called and the first [contentReady] that
    arrives carries a body, [doExportHtml] returns true right after the
    wait in which it arrived; [writeHtmlFile] was entered once, with the
    fragments of that signal and the options of the call, and the world
    is the one it left; later [contentReady] signals change nothing. *)
Theorem doExportHtml_success (p_htmlOption : ExportHtmlOption)
  (p_outputFile : QString) (p_baseUrl : QUrl) (pre : Schedule)
  (evs1 : list Event) (p_headContent p_styleContent p_bodyContent : QString)
  (evs2 : list Event) (post : Schedule) (e : Exporter) :
  m_askedToStop e = false ->
  (forall b, In b pre -> noStop b /\ noContent b) ->
  noStop evs1 -> noContent evs1 ->
  isEmpty p_bodyContent = false ->
  exists e' : Exporter,
    doExportHtml p_htmlOption p_outputFile p_baseUrl
      (pre ++ (evs1 ++ EvContentReady p_headContent p_styleContent p_bodyContent
                       :: evs2) :: post) e
    = Returned true e' post
    /\ calls e'
       = calls e ++ [CallDoExportHtml; CallSaveContent; CallWriteHtmlFile p_outputFile]
    /\ world e'
       = world (snd (writeHtmlFile p_outputFile p_baseUrl p_headContent
                       p_styleContent p_bodyContent (m_embedStyles p_htmlOption)
                       (m_completePage p_htmlOption) (m_embedImages p_htmlOption) e)).
Proof.
  intros St Hpre Hs1 Hc1 Hbody. unfold doExportHtml.
  set (job := {| job_option := p_htmlOption; job_outputFile := p_outputFile;
                 job_baseUrl := p_baseUrl |}).
  set (e0 := record CallSaveContent _).
  destruct (contentLoop_success job pre evs1 p_headContent p_styleContent
              p_bodyContent evs2 post e0 eq_refl eq_refl St Hpre Hs1 Hc1 Hbody)
    as (e' & L & S1 & K1 & W1).
  exists e'. rewrite L, S1. split; [reflexivity|]. split.
  - rewrite K1. subst e0. simpl. rewrite <- !app_assoc. reflexivity.
  - rewrite W1. apply writeHtmlFile_world; reflexivity.
Qed.

End HandlerFacts.

(** ** A whole export *)

Section ExportFacts.
Context `{WebViewState} `{Services}.

Lemma readinessLoop_ready_now (sched : Schedule) (e : Exporter) :
  isWebViewReady e = true -> readinessLoop sched e = Ready e sched.
Proof. intros R. destruct sched; simpl; rewrite R; reflexivity. Qed.

(** Without [stop] and without both signals the loop never ends. *)
Lemma readinessLoop_never (sched : Schedule) (e : Exporter) :
  (forall b, In b sched -> noStop b) ->
  m_askedToStop e = false ->
  isWebViewFailed e = false ->
  isWebViewReady (deliverAll (List.concat sched) e) = false ->
  readinessLoop sched e = NeverReady.
Proof.
  revert e. induction sched as [|b sched IH]; intros e Hs St Hf Hr.
  - simpl in *. change (deliverAll [] e) with e in Hr. rewrite Hr, St, Hf.
    reflexivity.
  - simpl List.concat in Hr. rewrite deliverAll_app in Hr. simpl.
    destruct (isWebViewReady e) eqn:R.
    + rewrite ready_deliverAll in Hr; [discriminate|].
      apply ready_deliverAll. exact R.
    + rewrite (noStop_askedToStop b e (Hs b (or_introl eq_refl))), St.
      assert (isWebViewFailed (deliverAll b e) = false) as Hf'
        by (rewrite isWebViewFailed_testbit in *; rewrite failBit_deliverAll; exact Hf).
      rewrite Hf'. apply IH; try assumption.
      * intros b' Hb'. apply Hs. right. exact Hb'.
      * rewrite noStop_askedToStop; [exact St|]. apply Hs. left. reflexivity.
Qed.

(** The wait that completes the two signals ends the loop. *)
Lemma readinessLoop_ready (pre : Schedule) (batch : list Event) (post : Schedule)
  (e : Exporter) :
  (forall b, In b pre -> noStop b) ->
  noStop batch ->
  m_askedToStop e = false ->
  isWebViewFailed e = false ->
  isWebViewReady (deliverAll (List.concat pre) e) = false ->
  isWebViewReady (deliverAll batch (deliverAll (List.concat pre) e)) = true ->
  readinessLoop (pre ++ batch :: post) e
  = Ready (deliverAll batch (deliverAll (List.concat pre) e)) post.
Proof.
  revert e. induction pre as [|b pre IH]; intros e Hs Hb St Hf Hn Hr.
  - simpl in *. change (deliverAll [] e) with e in *.
    rewrite Hn, (noStop_askedToStop batch e Hb), St.
    assert (isWebViewFailed (deliverAll batch e) = false) as Hf'
      by (rewrite isWebViewFailed_testbit in *; rewrite failBit_deliverAll; exact Hf).
    rewrite Hf'. apply readinessLoop_ready_now. exact Hr.
  - simpl List.concat in Hn, Hr. rewrite deliverAll_app in Hn, Hr.
    simpl. rewrite deliverAll_app.
    destruct (isWebViewReady e) eqn:R.
    + rewrite ready_deliverAll in Hn; [discriminate|].
      apply ready_deliverAll. exact R.
    + rewrite (noStop_askedToStop b e (Hs b (or_introl eq_refl))), St.
      assert (isWebViewFailed (deliverAll b e) = false) as Hf'
        by (rewrite isWebViewFailed_testbit in *; rewrite failBit_deliverAll; exact Hf).
      rewrite Hf'. apply IH; try assumption.
      * intros b' Hb'. apply Hs. right. exact Hb'.
      * rewrite noStop_askedToStop; [exact St|]. apply Hs. left. reflexivity.
Qed.

(** While no handler is connected the readiness loop makes no call and
    changes nothing but the render state and the stop flag. *)
Lemma readinessLoop_same (sched : Schedule) (e e' : Exporter) (rest : Schedule) :
  contentReadyConnection e = None ->
  readinessLoop sched e = Ready e' rest \/ readinessLoop sched e = ExitExport e' rest ->
  sameExport e' e.
Proof.
  revert e. induction sched as [|b sched IH]; intros e Hc L; simpl in L.
  - destruct (isWebViewReady e), (m_askedToStop e), (isWebViewFailed e);
      destruct L as [L|L]; try discriminate;
      injection L as <- _; apply sameExport_refl.
  - pose proof (deliverAll_disconnected_same b e Hc) as Sb.
    destruct (isWebViewReady e).
    + destruct L as [L|L]; try discriminate. injection L as <- _. apply sameExport_refl.
    + destruct (m_askedToStop (deliverAll b e)).
      * destruct L as [L|L]; try discriminate. injection L as <- _. exact Sb.
      * destruct (isWebViewFailed (deliverAll b e)).
        -- destruct L as [L|L]; try discriminate. injection L as <- _. exact Sb.
        -- apply (sameExport_trans _ (deliverAll b e)); [|exact Sb].
           apply IH; [|exact L]. destruct Sb as (_ & -> & _). exact Hc.
Qed.

Lemma started_not_failed (e : Exporter) (evs : list Event) :
  m_webViewStates e = Started -> isWebViewFailed (deliverAll evs e) = false.
Proof.
  intros S0. rewrite isWebViewFailed_testbit, failBit_deliverAll, S0.
  change Started with 0. apply Z.bits_0.
Qed.

(** X4.  There is no timeout: on a schedule in which [stop] is never
    called and the two signals never both arrive, [doExport] does not
    return, however long the schedule is. *)
Theorem doExport_blocks_without_signals (p_option : ExportOption) (p_file : File)
  (p_outputFile : QString) (sched : Schedule) (e : Exporter) :
  (forall b, In b sched -> noStop b) ->
  ~ (In EvLoadFinished (List.concat sched) /\ In EvWorkFinished (List.concat sched)) ->
  doExport p_option p_file p_outputFile sched e = Blocked.
Proof.
  intros Hs Hnot. unfold doExport.
  set (e0 := record (CallSetText (read p_file)) _).
  assert (isWebViewReady (deliverAll (List.concat sched) e0) = false) as Rn.
  { destruct (isWebViewReady (deliverAll (List.concat sched) e0)) eqn:R; [|reflexivity].
    exfalso. apply Hnot. apply (started_ready_iff e0); [reflexivity|exact R]. }
  rewrite (readinessLoop_never sched e0 Hs eq_refl
             (started_not_failed e0 [] eq_refl) Rn).
  reflexivity.
Qed.

(** X5.  Nothing delivered during an export sets Failed: from the state
    [Started] the test [isWebViewFailed] stays false under all events,
    so the failure exit of the readiness loop is never taken; and
    readiness, once reached, is kept. *)
Theorem started_never_failed (e : Exporter) (evs evs' : list Event) :
  m_webViewStates e = Started ->
  isWebViewFailed (deliverAll evs e) = false
  /\ (isWebViewReady (deliverAll evs e) = true ->
      isWebViewReady (deliverAll evs' (deliverAll evs e)) = true).
Proof.
  intros S0. split; [apply started_not_failed; exact S0|apply ready_deliverAll].
Qed.

(** X6.  A whole export that succeeds: the waits before the one that
    completes the two signals, that wait, the settle delay, the waits
    before the content and the wait in which the first [contentReady]
    arrives with a body, all without [stop].  [doExport] returns true
    right after that wait, has cleared the ongoing flag, has made exactly
    the calls setHtml, setText, doExportHtml, saveContent, writeHtmlFile,
    and leaves the world that [writeHtmlFile] produced from the world it
    started in. *)
Theorem doExport_success (htmlOption : ExportHtmlOption) (p_file : File)
  (p_outputFile : QString) (pre : Schedule) (ready settle : list Event)
  (cpre : Schedule) (evs1 : list Event)
  (p_headContent p_styleContent p_bodyContent : QString)
  (evs2 : list Event) (post : Schedule) (e : Exporter) :
  contentReadyConnection e = None ->
  (forall b, In b pre -> noStop b) ->
  ~ (In EvLoadFinished (List.concat pre) /\ In EvWorkFinished (List.concat pre)) ->
  noStop ready ->
  In EvLoadFinished (List.concat pre ++ ready) ->
  In EvWorkFinished (List.concat pre ++ ready) ->
  noStop settle ->
  (forall b, In b cpre -> noStop b /\ noContent b) ->
  noStop evs1 -> noContent evs1 ->
  isEmpty p_bodyContent = false ->
  exists e' : Exporter,
    doExport {| m_targetFormat := HTML; m_htmlOption := Some htmlOption |}
      p_file p_outputFile
      (pre ++ ready :: settle
           :: cpre ++ (evs1 ++ EvContentReady p_headContent p_styleContent
                                 p_bodyContent :: evs2) :: post) e
    = Returned true e' post
    /\ m_exportOngoing e' = false
    /\ calls e'
       = calls e
         ++ [CallSetHtml (m_htmlTemplate e) (pathToUrl (getContentPath p_file));
             CallSetText (read p_file);
             CallDoExportHtml; CallSaveContent; CallWriteHtmlFile p_outputFile]
    /\ world e'
       = world (snd (writeHtmlFile p_outputFile (pathToUrl (getContentPath p_file))
                       p_headContent p_styleContent p_bodyContent
                       (m_embedStyles htmlOption) (m_completePage htmlOption)
                       (m_embedImages htmlOption) e)).
Proof.
  intros Hc Hpre Hnot Hready HL HW Hsettle Hcpre Hs1 Hc1 Hbody.
  unfold doExport. cbn [m_targetFormat m_htmlOption].
  set (e0 := record (CallSetText (read p_file)) _).
  assert (m_webViewStates e0 = Started) as S0 by reflexivity.
  assert (isWebViewReady (deliverAll (List.concat pre) e0) = false) as Rn.
  { destruct (isWebViewReady (deliverAll (List.concat pre) e0)) eqn:R; [|reflexivity].
    exfalso. apply Hnot. apply (started_ready_iff e0); [exact S0|exact R]. }
  assert (isWebViewReady (deliverAll ready (deliverAll (List.concat pre) e0)) = true)
    as Ry.
  { rewrite <- deliverAll_app. apply (started_ready_iff e0); [exact S0|].
    split; assumption. }
  rewrite (readinessLoop_ready pre ready _ e0 Hpre Hready eq_refl
             (started_not_failed e0 [] S0) Rn Ry).
  set (e1 := deliverAll ready (deliverAll (List.concat pre) e0)).
  assert (sameExport e1 e0) as S1.
  { unfold e1. rewrite <- deliverAll_app.
    apply deliverAll_disconnected_same. exact Hc. }
  assert (m_askedToStop e1 = false) as St1.
  { unfold e1. rewrite (noStop_askedToStop ready _ Hready).
    rewrite askedToStop_deliverAll.
    destruct (existsb isStop (List.concat pre)) eqn:E; [|reflexivity].
    apply existsb_isStop in E. apply in_concat in E.
    destruct E as (b & Hb & Hin). exfalso. exact (Hpre b Hb Hin). }
  cbn [sleepWait].
  set (e2 := deliverAll settle e1).
  assert (sameExport e2 e1) as S2.
  { apply deliverAll_disconnected_same. destruct S1 as (_ & -> & _). exact Hc. }
  assert (m_askedToStop e2 = false) as St2
    by (unfold e2; rewrite (noStop_askedToStop settle _ Hsettle); exact St1).
  destruct (doExportHtml_success htmlOption p_outputFile
              (pathToUrl (getContentPath p_file)) cpre evs1 p_headContent
              p_styleContent p_bodyContent evs2 post e2 St2 Hcpre Hs1 Hc1 Hbody)
    as (e3 & E3 & K3 & W3).
  rewrite E3. exists (set_exportOngoing false e3).
  split; [reflexivity|]. split; [reflexivity|].
  destruct (sameExport_trans _ _ _ S2 S1) as (_ & _ & A3 & A4 & A5).
  split.
  - cbn [calls set_exportOngoing]. rewrite K3, A3. subst e0. simpl.
    rewrite <- !app_assoc. reflexivity.
  - cbn [world set_exportOngoing]. rewrite W3.
    apply writeHtmlFile_world; [rewrite A5|rewrite A4]; reflexivity.
Qed.

(** X7.  Whatever the schedule, when [doExport] returns on an exporter
    without a handler left connected, the ongoing flag is cleared, and it
    returns true exactly when [writeHtmlFile] was entered, once and for
    the output file; a false result means [writeHtmlFile] was never
    entered (stopped, another target format, empty body). *)
Theorem doExport_true_iff_written (p_option : ExportOption) (p_file : File)
  (p_outputFile : QString) (sched : Schedule) (e : Exporter)
  (ret : bool) (e' : Exporter) (rest : Schedule) :
  contentReadyConnection e = None ->
  doExport p_option p_file p_outputFile sched e = Returned ret e' rest ->
  m_exportOngoing e' = false
  /\ exists added : list Call,
       calls e' = calls e ++ added
       /\ filter isWriteCall added
          = if ret then [CallWriteHtmlFile p_outputFile] else [].
Proof.
  intros Hc E. unfold doExport in E.
  set (e0 := record (CallSetText (read p_file)) _) in E.
  assert (calls e0
          = calls e ++ [CallSetHtml (m_htmlTemplate e) (pathToUrl (getContentPath p_file));
                        CallSetText (read p_file)]) as K0
    by (subst e0; simpl; rewrite <- app_assoc; reflexivity).
  destruct (readinessLoop sched e0) as [e1 r1|e1 r1|] eqn:L; [| |discriminate].
  - assert (sameExport e1 e0) as S1
      by (apply (readinessLoop_same sched e0 e1 r1); [exact Hc|left; exact L]).
    destruct (sleepWait r1 e1) as [e2 r2] eqn:W.
    assert (sameExport e2 e1) as S2.
    { destruct r1 as [|b r1]; simpl in W; injection W as <- <-;
        [apply sameExport_refl|].
      apply deliverAll_disconnected_same. destruct S1 as (_ & -> & _). exact Hc. }
    destruct (sameExport_trans _ _ _ S2 S1) as (_ & _ & A3 & _).
    destruct (m_targetFormat p_option).
    + destruct (m_htmlOption p_option) as [htmlOption|]; [|discriminate].
      destruct (doExportHtml htmlOption p_outputFile _ r2 e2)
        as [ret3 e3 r3| |] eqn:E3; try discriminate.
      injection E as <- <- <-. split; [reflexivity|].
      destruct (doExportHtml_true_iff_written _ _ _ _ _ _ _ _ E3)
        as [(-> & K3 & _)|(-> & K3 & _)];
        eexists; (split; [cbn [calls set_exportOngoing]; rewrite K3, A3, K0;
                          rewrite <- app_assoc; reflexivity|reflexivity]).
    + injection E as <- <- <-. split; [reflexivity|].
      eexists. split; [cbn [calls set_exportOngoing]; rewrite A3, K0; reflexivity|].
      reflexivity.
  - injection E as <- <- <-. split; [reflexivity|].
    assert (sameExport e1 e0) as S1
      by (apply (readinessLoop_same sched e0 e1 r1); [exact Hc|right; exact L]).
    destruct S1 as (_ & _ & A3 & _).
    eexists. split; [cbn [calls set_exportOngoing]; rewrite A3, K0; reflexivity|].
    reflexivity.
Qed.

End ExportFacts.

(** ** What the two patterns match *)

Section PatternFacts.

(** X8.  The style pattern matches exactly the texts that start, at a
    word boundary, with url, an opening parenthesis and a double quote,
    then file or qrc, a colon and at least one character that is neither
    a double quote nor a closing parenthesis, then a double quote, a
    closing parenthesis and a semicolon; the first capture is the url
    between the quotes. *)
Theorem styleUrlRegExp_matches_iff (prev : option ascii) (s : QString) (m : RegMatch) :
  styleUrlRegExp prev s = Some m
  <-> wordBoundary prev (qs "u") = true
      /\ exists scheme body rest : QString,
           (scheme = qs "file" \/ scheme = qs "qrc")
           /\ isEmpty body = false
           /\ forallb notQuoteParen body = true
           /\ s = matchText (scheme ++ qs ":" ++ body) ++ rest
           /\ m = {| matchedLength := size (matchText (scheme ++ qs ":" ++ body));
                     capturedTexts := [matchText (scheme ++ qs ":" ++ body);
                                       scheme ++ qs ":" ++ body; scheme] |}.
Proof.
  split.
  - apply styleUrlRegExp_sound.
  - intros (B & scheme & body & rest & Hs & Ne & Hall & -> & ->).
    apply styleUrlRegExp_complete; assumption.
Qed.

Lemma imgSrcTail_chars (s src post : QString) :
  imgSrcTail s = Some (src, post) ->
  forallb notQuote src = true /\ forallb notGt post = true.
Proof.
  unfold imgSrcTail. intros E.
  destruct (stripPrefix (qs "src=" ++ [dquote]) s) as [r|]; [|discriminate].
  destruct (span notQuote r) as [src' r1] eqn:P2.
  destruct (isEmpty src'); [discriminate|].
  destruct (stripPrefix [dquote] r1) as [r2|]; [|discriminate].
  destruct (span notGt r2) as [post' r3] eqn:P4.
  destruct (stripPrefix (qs ">") r3) as [rest|]; [|discriminate].
  injection E as <- <-. split; [exact (span_all _ _ _ _ P2)|exact (span_all _ _ _ _ P4)].
Qed.

Lemma imgAttrs_chars (acc s pre src post : QString) :
  forallb notGt acc = true ->
  imgAttrs acc s = Some (pre, src, post) ->
  forallb notGt pre = true /\ forallb notQuote src = true
  /\ forallb notGt post = true.
Proof.
  revert acc. induction s as [|c s IH]; intros acc Ha E.
  - simpl in E. discriminate.
  - simpl imgAttrs in E.
    assert (match imgSrcTail (c :: s) with
            | Some (src0, post0) => Some (rev acc, src0, post0)
            | None => None
            end = Some (pre, src, post) ->
            forallb notGt pre = true /\ forallb notQuote src = true
            /\ forallb notGt post = true) as Here.
    { intros E'. destruct (imgSrcTail (c :: s)) as [[src0 post0]|] eqn:T; [|discriminate].
      injection E' as <- <- <-. destruct (imgSrcTail_chars _ _ _ T) as [Q G].
      split; [|split; assumption].
      apply forallb_forall. intros x Hx. apply in_rev in Hx.
      rewrite forallb_forall in Ha. exact (Ha x Hx). }
    destruct (notGt c) eqn:Gc.
    + destruct (imgAttrs (c :: acc) s) as [m|] eqn:L.
      * injection E as ->. apply (IH (c :: acc)); [|exact L].
        simpl. rewrite Gc, Ha. reflexivity.
      * apply Here. exact E.
    + apply Here. exact E.
Qed.

(** What a match of the image pattern looks like. *)
Lemma c_imgRegExp_sound (prev : option ascii) (s : QString) (m : RegMatch) :
  c_imgRegExp prev s = Some m ->
  (exists rest : QString, s = imgText (cap m 1) (cap m 2) (cap m 3) ++ rest)
  /\ cap m 0 = imgText (cap m 1) (cap m 2) (cap m 3)
  /\ matchedLength m = size (imgText (cap m 1) (cap m 2) (cap m 3))
  /\ isEmpty (cap m 2) = false
  /\ forallb notGt (cap m 1) = true
  /\ forallb notQuote (cap m 2) = true
  /\ forallb notGt (cap m 3) = true.
Proof.
  unfold c_imgRegExp. intros E.
  destruct (stripPrefix (qs "<img ") s) as [r|] eqn:P1; [|discriminate].
  destruct (imgAttrs [] r) as [[[pre src] post]|] eqn:P2; [|discriminate].
  injection E as <-. unfold cap. cbn [nth capturedTexts matchedLength].
  apply stripPrefix_Some in P1.
  destruct (imgAttrs_chars [] r pre src post eq_refl P2) as (G1 & Q2 & G3).
  apply imgAttrs_Some in P2. destruct P2 as [Ne [rest P2]].
  simpl rev in P2. simpl app in P2 at 1.
  split; [|repeat split; assumption].
  exists rest. rewrite P1, P2. unfold imgText. flatten_app. reflexivity.
Qed.

(** X9.  Whatever the body scans find is an image tag of the shape of
    the pattern: no > among its attributes, no double quote in its
    source, and a source that is not empty; so the branch of
    [embedBodyResources] and [fixBodyResources] for an empty source is
    never taken. *)
Theorem img_match_has_source (html : QString) (from idx : Z) (reg : RegMatch) :
  0 <= from <= size html ->
  indexOf html c_imgRegExp from = (idx, reg) ->
  idx <> -1 ->
  isEmpty (cap reg 2) = false
  /\ (exists rest : QString,
         skipn (Z.to_nat idx) html
         = imgText (cap reg 1) (cap reg 2) (cap reg 3) ++ rest)
  /\ matchedLength reg = size (imgText (cap reg 1) (cap reg 2) (cap reg 3))
  /\ forallb notGt (cap reg 1) = true
  /\ forallb notQuote (cap reg 2) = true
  /\ forallb notGt (cap reg 3) = true.
Proof.
  intros Hf I Hidx.
  destruct (indexOf_found c_imgRegExp _ _ _ _ Hf I Hidx) as (_ & M & _).
  destruct (c_imgRegExp_sound _ _ _ M) as (Hs & _ & L & Ne & G1 & Q2 & G3).
  repeat split; assumption.
Qed.

End PatternFacts.

(** ** Edges of the relative path *)

Section RelativePathEdges.

Lemma lastIdx_bound (ch : ascii) (l : QString) : -1 <= lastIdx ch l < size l.
Proof.
  induction l as [|c l IH]; simpl; [unfold size; simpl; lia|].
  rewrite size_cons.
  destruct (Z.leb_spec 0 (lastIdx ch l)); [lia|].
  destruct (Ascii.eqb c ch); lia.
Qed.

Lemma lastIndexOf_below (s : QString) (ch : ascii) (from : Z) :
  0 <= from -> -1 <= lastIndexOf s ch from <= from.
Proof.
  intros Hf. cbv beta zeta delta [lastIndexOf].
  destruct (Z.ltb_spec from 0); [lia|].
  destruct (Z.ltb_spec from 0); [lia|].
  destruct (Z.leb_spec (size s) from); cbn [orb]; [lia|].
  pose proof (lastIdx_bound ch (firstn (Z.to_nat from + 1) s)) as B.
  unfold size in B. rewrite length_firstn in B. lia.
Qed.

(** X10.  The assertion of [getResourceRelativePath] holds exactly when
    the path has a slash and its last slash is not the first character
    (a path without a slash fails it): its second half follows from the
    first.  And a path that passes with a single slash, [parent/name],
    comes back with a dot in front and no slash after the dot, that is
    as [.parent/name]. *)
Theorem getResourceRelativePath_assertion (p_file parent name : QString) :
  getResourceRelativePath_asserts p_file = (0 <? lastIndexOf p_file "/"%char (-1))
  /\ (isEmpty parent = false ->
      forallb notSlash parent = true ->
      forallb notSlash name = true ->
      getResourceRelativePath_asserts (parent ++ qs "/" ++ name) = true
      /\ getResourceRelativePath (parent ++ qs "/" ++ name)
         = qs "." ++ parent ++ qs "/" ++ name).
Proof.
  split.
  - unfold getResourceRelativePath_asserts.
    destruct (Z.ltb_spec 0 (lastIndexOf p_file "/"%char (-1))) as [Hpos|Hneg];
      [|reflexivity].
    pose proof (lastIndexOf_below p_file "/"%char
                  (lastIndexOf p_file "/"%char (-1) - 1) ltac:(lia)) as B.
    simpl. apply Z.ltb_lt. lia.
  - intros Ne Hp Hn.
    set (path := parent ++ qs "/" ++ name).
    assert (size path = size parent + 1 + size name) as Hsize
      by (subst path; rewrite !size_app; change (size (qs "/")) with 1; lia).
    pose proof (size_nonneg name) as Hna.
    assert (0 < size parent) as Hpa
      by (destruct parent; [discriminate|rewrite size_cons;
                                         pose proof (size_nonneg parent); lia]).
    assert (lastIndexOf path "/"%char (-1) = size parent) as Hidx.
    { cbv beta zeta delta [lastIndexOf]. change (-1 <? 0) with true. cbv iota.
      destruct (Z.ltb_spec (-1 + size path) 0); [lia|].
      destruct (Z.leb_spec (size path) (-1 + size path)); [lia|].
      cbn [orb].
      rewrite firstn_all2 by (unfold size in *; lia).
      subst path. change (qs "/" ++ name) with ("/"%char :: name).
      apply lastIdx_app. exact Hn. }
    assert (lastIndexOf path "/"%char (size parent - 1) = -1) as Hidx2.
    { cbv beta zeta delta [lastIndexOf].
      destruct (Z.ltb_spec (size parent - 1) 0); [lia|].
      destruct (Z.ltb_spec (size parent - 1) 0); [lia|].
      destruct (Z.leb_spec (size path) (size parent - 1)); [lia|].
      cbn [orb]. subst path. rewrite firstn_app.
      replace (Z.to_nat (size parent - 1) + 1)%nat with (List.length parent)
        by (unfold size in *; lia).
      rewrite firstn_all, Nat.sub_diag. simpl firstn. rewrite app_nil_r.
      apply lastIdx_absent. exact Hp. }
    split.
    + unfold getResourceRelativePath_asserts. fold path. rewrite Hidx, Hidx2.
      apply andb_true_iff. split; apply Z.ltb_lt; lia.
    + unfold getResourceRelativePath. fold path. rewrite Hidx, Hidx2.
      unfold mid.
      destruct (Z.gtb_spec (-1) (size path)); [lia|]. reflexivity.
Qed.

End RelativePathEdges.

(** ** What the returned flag of a scan tells *)

Section FlagFacts.
Context `{Services}.

Lemma marked_skip (html0 : QString) (st : Scan) (idx mlen : Z) :
  changeMarked html0 st ->
  pos st <= idx -> 0 < mlen -> idx + mlen <= size (p_html st) ->
  changeMarked html0
    {| p_html := p_html st; pos := idx + mlen; altered := altered st |}.
Proof.
  intros (Hp & Hu & Hc) Hi Hm He. unfold changeMarked. cbn [p_html pos altered].
  split; [lia|]. split; [exact Hu|].
  intros A. destruct (Hc A) as (k & Hk & K1 & K2). exists k.
  split; [lia|]. split; assumption.
Qed.

Lemma marked_replace (html0 : QString) (st : Scan) (idx mlen : Z)
  (newUrl : QString) (j : nat) :
  changeMarked html0 st ->
  pos st <= idx -> 0 < mlen -> idx + mlen <= size (p_html st) ->
  (j < List.length newUrl)%nat ->
  nth_error newUrl j = Some "'"%char ->
  nth_error (p_html st) (Z.to_nat idx + j) = Some dquote ->
  changeMarked html0
    {| p_html := replace (p_html st) idx mlen newUrl;
       pos := idx + size newUrl; altered := true |}.
Proof.
  intros (Hp & Hu & Hc) Hi Hm He Hj N1 N2.
  unfold changeMarked. cbn [p_html pos altered].
  rewrite replace_inside by lia.
  assert (List.length (firstn (Z.to_nat idx) (p_html st)) = Z.to_nat idx) as L
    by (rewrite length_firstn; unfold size in He; lia).
  assert (size (firstn (Z.to_nat idx) (p_html st)) = idx) as Lz
    by (unfold size; rewrite L; lia).
  split; [|split; [discriminate|intros _]].
  - rewrite !size_app, Lz.
    pose proof (size_nonneg (skipn (Z.to_nat (idx + mlen)) (p_html st))).
    pose proof (size_nonneg newUrl). lia.
  - destruct (altered st) eqn:A.
    + destruct (Hc eq_refl) as (k & Hk & K1 & K2). exists k.
      split; [pose proof (size_nonneg newUrl); lia|]. split; [|exact K2].
      rewrite nth_error_app1 by lia.
      rewrite nth_error_firstn.
      destruct (Nat.ltb_spec k (Z.to_nat idx)); [exact K1|lia].
    + exists (Z.to_nat idx + j)%nat. split; [unfold size; lia|]. split.
      * rewrite nth_error_app2 by lia. rewrite L.
        replace (Z.to_nat idx + j - Z.to_nat idx)%nat with j by lia.
        rewrite nth_error_app1 by exact Hj. exact N1.
      * rewrite <- (Hu eq_refl). exact N2.
Qed.

Lemma embedStyleIter_marked (html0 : QString) (w : World) (st st' : Scan) :
  changeMarked html0 st -> embedStyleIter w st = Some st' -> changeMarked html0 st'.
Proof.
  intros M E. pose proof M as (Hp & _). unfold embedStyleIter in E.
  destruct (pos st <? size (p_html st)) eqn:Hlt; [|discriminate].
  destruct (indexOf (p_html st) styleUrlRegExp (pos st)) as [idx reg] eqn:I.
  destruct (idx =? -1) eqn:Hidx; [discriminate|].
  destruct (found_inside _ _ _ _ styleUrlRegExp_prefix (proj1 Hp) Hlt I Hidx)
    as (A & Mfound & Ffirst & B & C).
  destruct (isEmpty (toDataUri (cap reg 1) false w)); injection E as <-.
  - apply marked_skip; try assumption; lia.
  - apply Z.eqb_neq in Hidx.
    destruct (indexOf_found styleUrlRegExp _ _ _ _ Hp I Hidx) as (_ & Mt & _).
    destruct (styleUrlRegExp_sound _ _ _ Mt) as (_ & sch & body & rest & _ & _ & _ & Es & _).
    apply (marked_replace html0 st idx (matchedLength reg) _ 4); try assumption;
      try lia.
    + simpl. lia.
    + reflexivity.
    + rewrite <- nth_error_skipn, Es. reflexivity.
Qed.

Lemma nth_error_after (a x b : QString) (j : nat) :
  nth_error (a ++ x ++ b) (List.length a + List.length x + j) = nth_error b j.
Proof.
  rewrite nth_error_app2 by lia.
  replace (List.length a + List.length x + j - List.length a)%nat
    with (List.length x + j)%nat by lia.
  rewrite nth_error_app2 by lia. f_equal. lia.
Qed.

Lemma embedBodyIter_marked (html0 : QString) (p_baseUrl : QUrl) (w : World)
  (st st' : Scan) :
  changeMarked html0 st -> embedBodyIter p_baseUrl w st = Some st' ->
  changeMarked html0 st'.
Proof.
  intros M E. pose proof M as (Hp & _). unfold embedBodyIter in E.
  destruct (pos st <? size (p_html st)) eqn:Hlt; [|discriminate].
  destruct (indexOf (p_html st) c_imgRegExp (pos st)) as [idx reg] eqn:I.
  destruct (idx =? -1) eqn:Hidx; [discriminate|].
  destruct (found_inside _ _ _ _ c_imgRegExp_prefix (proj1 Hp) Hlt I Hidx)
    as (A & Mfound & Ffirst & B & C).
  destruct (isEmpty (cap reg 2)).
  - injection E as <-. apply marked_skip; try assumption; lia.
  - set (newUrl := qs "<img " ++ cap reg 1 ++ _) in E.
    destruct (isEmpty (toDataUri (resolved p_baseUrl (cap reg 2)) true w));
      injection E as <-.
    + apply marked_skip; try assumption; lia.
    + apply Z.eqb_neq in Hidx.
      destruct (img_match_has_source _ _ _ _ Hp I Hidx) as (_ & (rest & Es) & _).
      apply (marked_replace html0 st idx (matchedLength reg) newUrl
               (List.length (qs "<img ") + List.length (cap reg 1) + 4));
        try assumption; try lia.
      * unfold newUrl. rewrite !length_app. simpl. lia.
      * unfold newUrl. rewrite nth_error_after. reflexivity.
      * rewrite <- nth_error_skipn, Es. unfold imgText.
        rewrite <- !app_assoc. rewrite nth_error_after. reflexivity.
Qed.

Lemma marked_start (html : QString) : changeMarked html (scanStart html).
Proof.
  unfold changeMarked, scanStart. cbn [p_html pos altered].
  pose proof (size_nonneg html). split; [lia|]. split; [reflexivity|discriminate].
Qed.

Lemma marked_flag (html0 : QString) (st : Scan) :
  changeMarked html0 st -> (altered st = true <-> p_html st <> html0).
Proof.
  intros (_ & Hu & Hc). split.
  - intros A E. destruct (Hc A) as (k & _ & K1 & K2).
    rewrite E, K2 in K1. discriminate K1.
  - intros N. destruct (altered st); [reflexivity|]. exfalso. exact (N (Hu eq_refl)).
Qed.

(** X11.  [embedStyleResources] and [embedBodyResources] return true
    exactly when the text they hand back differs from the text they
    were given, for every converter. *)
Theorem embed_true_iff_changed (p_baseUrl : QUrl) (html : QString) (w : World) :
  (snd (embedStyleResources html w) = true
   <-> fst (embedStyleResources html w) <> html)
  /\ (snd (embedBodyResources p_baseUrl html w) = true
      <-> fst (embedBodyResources p_baseUrl html w) <> html).
Proof.
  split.
  - unfold embedStyleResources. cbn [fst snd]. apply marked_flag.
    apply (whileLoop_invariant (embedStyleIter w) (changeMarked html)).
    + intros s s'. apply embedStyleIter_marked.
    + apply marked_start.
  - unfold embedBodyResources. destruct (isEmpty p_baseUrl).
    + cbn [fst snd]. split; [discriminate|intros N; exfalso; exact (N eq_refl)].
    + cbn [fst snd]. apply marked_flag.
      apply (whileLoop_invariant (embedBodyIter p_baseUrl w) (changeMarked html)).
      * intros s s'. apply embedBodyIter_marked.
      * apply marked_start.
Qed.

(** X12.  When no resource can be converted, the two embedding scans
    hand back the text they were given and return false; when no
    resource can be copied, so does [fixBodyResources]: matches that
    fail are passed over, whatever their number. *)
Theorem failing_resources_keep_text (p_baseUrl : QUrl) (p_folder html : QString)
  (w : World) :
  (forall (u : QUrl) (b : bool) (w' : World), isEmpty (toDataUri u b w') = true) ->
  (forall (u : QUrl) (f : QString) (w' : World),
      isEmpty (fst (copyResource u f w')) = true) ->
  embedStyleResources html w = (html, false)
  /\ embedBodyResources p_baseUrl html w = (html, false)
  /\ fst (fixBodyResources p_baseUrl p_folder html w) = (html, false).
Proof.
  intros Hconv Hcopy.
  set (inv := fun st : Scan => p_html st = html /\ altered st = false).
  assert (forall body : Scan -> option Scan,
             (forall s s', inv s -> body s = Some s' -> inv s') ->
             forall fuel,
               (p_html (loopState (whileLoop body fuel (scanStart html))),
                altered (loopState (whileLoop body fuel (scanStart html))))
               = (html, false)) as Keep.
  { intros body Hstep fuel.
    destruct (whileLoop_invariant body inv Hstep fuel (scanStart html))
      as [-> ->]; [split|]; reflexivity. }
  split; [|split].
  - unfold embedStyleResources. apply Keep.
    intros s s' (Eh & Ea) E. unfold embedStyleIter in E.
    destruct (pos s <? size (p_html s)); [|discriminate].
    destruct (indexOf (p_html s) styleUrlRegExp (pos s)) as [idx reg].
    destruct (idx =? -1); [discriminate|].
    rewrite Hconv in E. injection E as <-. split; assumption.
  - unfold embedBodyResources. destruct (isEmpty p_baseUrl); [reflexivity|].
    apply Keep.
    intros s s' (Eh & Ea) E. unfold embedBodyIter in E.
    destruct (pos s <? size (p_html s)); [|discriminate].
    destruct (indexOf (p_html s) c_imgRegExp (pos s)) as [idx reg].
    destruct (idx =? -1); [discriminate|].
    destruct (isEmpty (cap reg 2)); [injection E as <-; split; assumption|].
    rewrite Hconv in E. injection E as <-. split; assumption.
  - unfold fixBodyResources. destruct (isEmpty p_baseUrl); [reflexivity|].
    cbn [fst].
    destruct (whileLoop_invariant (fixBodyIter p_baseUrl p_folder)
                (fun sw => inv (fst sw))) with
      (fuel := scanFuel (scanStart html)) (s := (scanStart html, w)) as [-> ->];
      [|split; reflexivity|reflexivity].
    intros [s v] [s' v'] (Eh & Ea) E. cbn [fst] in *. unfold fixBodyIter in E.
    destruct (pos s <? size (p_html s)); [|discriminate].
    destruct (indexOf (p_html s) c_imgRegExp (pos s)) as [idx reg].
    destruct (idx =? -1); [discriminate|].
    destruct (isEmpty (cap reg 2)); [injection E as <- _; split; assumption|].
    pose proof (Hcopy (resolved p_baseUrl (cap reg 2)) p_folder v) as Hc.
    destruct (copyResource (resolved p_baseUrl (cap reg 2)) p_folder v)
      as [targetFile w1].
    cbn [fst] in Hc. rewrite Hc in E. injection E as <- _. split; assumption.
Qed.

End FlagFacts.

(** ** The file writer without a base URL *)

Section WriterFacts.
Context `{Services}.

(** X13.  With an empty base URL the option [completePage] has no
    effect on [writeHtmlFile]: the body is inserted as it is, nothing is
    converted or copied, and the call is the same as with the option
    off. *)
Theorem writeHtmlFile_empty_baseUrl (p_file : QString) (p_baseUrl : QUrl)
  (p_headContent p_styleContent p_bodyContent : QString)
  (p_embedStyles p_completePage p_embedImages : bool) (e : Exporter) :
  isEmpty p_baseUrl = true ->
  writeHtmlFile p_file p_baseUrl p_headContent p_styleContent p_bodyContent
    p_embedStyles p_completePage p_embedImages e
  = writeHtmlFile p_file p_baseUrl p_headContent p_styleContent p_bodyContent
      p_embedStyles false p_embedImages e.
Proof.
  intros Hb. unfold writeHtmlFile, assembleHtml.
  destruct p_completePage; [|reflexivity].
  unfold embedBodyResources, fixBodyResources. rewrite Hb.
  destruct p_embedImages; reflexivity.
Qed.

End WriterFacts.

(* ================================================================== *)
(** * Part III: concrete runs *)
(* ================================================================== *)

Section ConcreteRuns.
#[local] Existing Instance qtWebViewState.
#[local] Existing Instance stubServices.

(** The theorem of C1 at the state 0x3 (both completion flags). *)
Lemma isWebViewReady_iff_flags_witness :
  (isWebViewReady (preparedExporter stubServices 3 []) = true <->
   testFlag 3 LoadFinished = true /\ testFlag 3 WorkFinished = true
   /\ testFlag 3 Failed = false)
  /\ (forall evs : list Event,
        isWebViewReady
          (deliverAll evs (set_webViewStates Started (preparedExporter stubServices 3 [])))
        = true
        <-> In EvLoadFinished evs /\ In EvWorkFinished evs).
Proof.
  apply (isWebViewReady_iff_flags (preparedExporter stubServices 3 [])).
  reflexivity.
Defined.

(** The theorem of C2 at the state 0x4 (Failed), followed by both
    completion signals. *)
Lemma failed_never_ready_witness :
  isWebViewFailed (deliverAll [EvLoadFinished; EvWorkFinished]
                     (preparedExporter stubServices 4 [])) = true
  /\ isWebViewReady (deliverAll [EvLoadFinished; EvWorkFinished]
                       (preparedExporter stubServices 4 [])) = false.
Proof.
  apply (failed_never_ready (preparedExporter stubServices 4 [])
           [EvLoadFinished; EvWorkFinished]).
  reflexivity.
Defined.

(** The theorem of C3: one wait with the load signal, then a wait during
    which [stop] is called. *)
Lemma doExport_stop_while_waiting_witness :
  exists (e' : Exporter) (added : list Call),
    doExport {| m_targetFormat := HTML; m_htmlOption := None |}
      {| isMarkdown := true; getContentPath := qs "/notes/a.md";
         getFilePath := qs "/notes/a.md"; read := qs "# a" |}
      (qs "/out/a.html")
      ([[EvLoadFinished]] ++ [EvWorkFinished; EvStop] :: [[EvWorkFinished]])
      (preparedExporter stubServices 0 [])
    = Returned false e' [[EvWorkFinished]]
    /\ m_exportOngoing e' = false
    /\ calls e' = calls (preparedExporter stubServices 0 []) ++ added
    /\ ~ In CallDoExportHtml added.
Proof.
  apply (doExport_stop_while_waiting
           {| m_targetFormat := HTML; m_htmlOption := None |}
           {| isMarkdown := true; getContentPath := qs "/notes/a.md";
              getFilePath := qs "/notes/a.md"; read := qs "# a" |}
           (qs "/out/a.html") [[EvLoadFinished]] [EvWorkFinished; EvStop]
           [[EvWorkFinished]] (preparedExporter stubServices 0 [])).
  - intros b [<-|[]] [D|[]]. discriminate D.
  - simpl. intros [_ [D|[]]]. discriminate D.
  - simpl. right. left. reflexivity.
Defined.

(** C4 refuted on a run: with [embedStyles] false the document written
    does not contain the style content; the placeholder is still
    there. *)
Lemma writeHtmlFile_style_not_inserted :
  world (snd (writeHtmlFile (qs "/out/n.html") (qs "file:///notes/") []
                (qs "p{color:red}") (qs "<p>hi</p>") false false false
                (preparedExporter stubServices 0 [])))
  = [(qs "/out/n.html",
      qs "<html><head>n - VNote<style>@STYLE@</style>@HEAD@</head><body><p>hi</p></body></html>")]
  /\ contains
       (qs "<html><head>n - VNote<style>@STYLE@</style>@HEAD@</head><body><p>hi</p></body></html>")
       (qs "p{color:red}") = false
  /\ contains
       (fillStyleContent (m_exportHtmlTemplate (preparedExporter stubServices 0 []))
          (qs "p{color:red}"))
       (qs "p{color:red}") = true.
Proof. repeat split; vm_compute; reflexivity. Qed.

(** The theorem of C5: the content arrives in the second wait, with an
    empty body and non-empty head and style. *)
Lemma doExportHtml_empty_body_witness :
  exists (e' : Exporter) (rest : Schedule),
    doExportHtml
      {| m_embedStyles := true; m_completePage := true; m_embedImages := true;
         m_useMimeHtmlFormat := false; m_addOutlinePanel := false |}
      (qs "/out/a.html") (qs "file:///notes/")
      ([[EvLoadFinished]]
       ++ ([EvWorkFinished] ++ EvContentReady (qs "<meta>") (qs "p{}") [] :: [])
       :: [])
      (preparedExporter stubServices 3 [])
    = Returned false e' rest
    /\ calls e'
       = calls (preparedExporter stubServices 3 [])
         ++ [CallDoExportHtml; CallSaveContent].
Proof.
  apply (doExportHtml_empty_body
           {| m_embedStyles := true; m_completePage := true; m_embedImages := true;
              m_useMimeHtmlFormat := false; m_addOutlinePanel := false |}
           (qs "/out/a.html") (qs "file:///notes/") [[EvLoadFinished]]
           [EvWorkFinished] (qs "<meta>") (qs "p{}") [] []
           (preparedExporter stubServices 3 [])).
  intros ev [<-|[<-|[]]]; reflexivity.
Defined.

(** C6 on a disk where every write fails: true all the same. *)
Lemma writeHtmlFile_true_when_write_fails :
  fst (@writeFile readOnlyServices (qs "/out/n.html") (qs "<html></html>") []) = false
  /\ fst (@writeHtmlFile readOnlyServices (qs "/out/n.html") (qs "file:///notes/") []
            (qs "p{}") (qs "<p>hi</p>") true true true
            (preparedExporter readOnlyServices 0 [])) = true.
Proof. split; vm_compute; reflexivity. Qed.

(** C8 refuted on a run: the copy is at /out/n_files/sub/x.png, its
    grandparent segment is n_files, and the rewritten source is
    ./sub/x.png, without that segment. *)
Lemma relative_path_has_two_segments :
  copyResource (resolved (qs "file:///notes/") (qs "img/x.png")) (qs "/out/n_files") []
  = (qs "/out/n_files/sub/x.png", [])
  /\ fixBodyResources (qs "file:///notes/") (qs "/out/n_files")
       (imgTag (qs "img/x.png")) []
     = (imgTag (qs "./sub/x.png"), true, [])
  /\ imgTag (qs "./sub/x.png")
     <> imgTag (specRelativePath (qs "n_files") (qs "sub") (qs "x.png")).
Proof.
  split; [reflexivity|]. split; [vm_compute; reflexivity|].
  vm_compute. discriminate.
Qed.

(** The theorem of C8 on the same run. *)
Lemma fixBodyIter_src_relative_witness :
  getResourceRelativePath (qs "/out/n_files" ++ qs "/" ++ qs "sub" ++ qs "/" ++ qs "x.png")
  = qs "./" ++ qs "sub" ++ qs "/" ++ qs "x.png"
  /\ p_html {| p_html := imgTag (qs "./sub/x.png"); pos := 23; altered := true |}
     = firstn (Z.to_nat 0) (p_html (scanStart (imgTag (qs "img/x.png"))))
       ++ (qs "<img " ++ [] ++ qs "src=" ++ [dquote]
           ++ qs "./" ++ qs "sub" ++ qs "/" ++ qs "x.png"
           ++ [dquote] ++ [] ++ qs ">")
       ++ skipn (Z.to_nat (0 + 21)) (p_html (scanStart (imgTag (qs "img/x.png"))))
  /\ altered {| p_html := imgTag (qs "./sub/x.png"); pos := 23; altered := true |} = true
  /\ (@nil (QString * QString)) = [].
Proof.
  apply (@fixBodyIter_src_relative stubServices (qs "file:///notes/") (qs "/out/n_files")
           (scanStart (imgTag (qs "img/x.png"))) []
           {| p_html := imgTag (qs "./sub/x.png"); pos := 23; altered := true |} []
           0 {| matchedLength := 21;
                capturedTexts := [imgTag (qs "img/x.png"); []; qs "img/x.png"; []] |}
           [] (qs "/out/n_files") (qs "sub") (qs "x.png")).
  - simpl. lia.
  - vm_compute. reflexivity.
  - vm_compute. reflexivity.
  - reflexivity.
  - reflexivity.
  - reflexivity.
Defined.

(** The theorem of C9 on the first iteration over an image tag. *)
Lemma scans_advance_and_terminate_witness :
  advances c_imgRegExp (scanStart (imgTag (qs "img/x.png")))
    {| p_html := qs "<img src='DATA'>"; pos := 16; altered := true |}.
Proof.
  pose proof (@scans_advance_and_terminate stubServices) as (_ & Hbody & _).
  apply (Hbody (qs "file:///notes/") [] (scanStart (imgTag (qs "img/x.png")))).
  - simpl. lia.
  - vm_compute. reflexivity.
Defined.

(** The theorem of C10 at the empty URL. *)
Lemma empty_baseUrl_leaves_body_witness :
  embedBodyResources [] (imgTag (qs "img/x.png")) [] = (imgTag (qs "img/x.png"), false)
  /\ fixBodyResources [] (qs "/out/n_files") (imgTag (qs "img/x.png")) []
     = (imgTag (qs "img/x.png"), false, []).
Proof.
  apply (@empty_baseUrl_leaves_body stubServices [] (qs "/out/n_files") (imgTag (qs "img/x.png")) []).
  reflexivity.
Defined.

(** C7 refuted on a run: the style content is the quoted url alone,
    without a semicolon after the parenthesis; the converter yields DATA
    for every URL; nothing is replaced and false is returned. *)
Lemma style_url_without_semicolon_kept :
  (forall (u : QUrl) (b : bool) (w : World), toDataUri u b w = qs "DATA")
  /\ contains (cssUrl (qs "file:///a/b.png")) (cssUrl (qs "file:///a/b.png")) = true
  /\ embedStyleResources (cssUrl (qs "file:///a/b.png")) []
     = (cssUrl (qs "file:///a/b.png"), false)
  /\ contains (fst (embedStyleResources (cssUrl (qs "file:///a/b.png")) []))
       (qs "url('DATA')") = false
  /\ contains (fst (embedStyleResources (cssUrl (qs "file:///a/b.png")) []))
       (qs "url(" ++ [dquote] ++ qs "file:") = true.
Proof.
  split; [reflexivity|]. repeat split; vm_compute; reflexivity.
Qed.

(** The theorem of C7 on a rule with the url, the semicolon included. *)
Lemma embedStyleResources_replaces_url_witness :
  snd (embedStyleResources
         (qs "p { background: " ++ cssUrl (qs "file:///a/b.png") ++ qs ";" ++ qs " }")
         []) = true
  /\ contains
       (fst (embedStyleResources
               (qs "p { background: " ++ cssUrl (qs "file:///a/b.png") ++ qs ";"
                ++ qs " }") []))
       (qs "url('DATA');") = true
  /\ (forall i : Z,
       0 <= i <= size (fst (embedStyleResources
                              (qs "p { background: " ++ cssUrl (qs "file:///a/b.png")
                               ++ qs ";" ++ qs " }") [])) ->
       matchAt styleUrlRegExp
         (fst (embedStyleResources
                 (qs "p { background: " ++ cssUrl (qs "file:///a/b.png") ++ qs ";"
                  ++ qs " }") [])) i
       = None)
  /\ embedStyleResources (qs "p { background: " ++ cssUrl (qs "file:///a/b.png")
                          ++ qs " }") []
     = (qs "p { background: " ++ cssUrl (qs "file:///a/b.png") ++ qs " }", false).
Proof.
  destruct (@embedStyleResources_replaces_url stubServices (qs "p { background: ")
              (qs " }") [] (fun _ _ _ => eq_refl) eq_refl)
    as (A & B & C & _ & E).
  split; [exact A|]. split; [exact B|]. split; [exact C|].
  apply E. reflexivity.
Defined.

(** The theorem of X1 on a call made with [stop] pending and no event
    to come: it returns false after one wait, the handler still
    connected. *)
Lemma doExportHtml_true_iff_written_witness :
  exists e' : Exporter,
    doExportHtml
      {| m_embedStyles := true; m_completePage := true; m_embedImages := true;
         m_useMimeHtmlFormat := false; m_addOutlinePanel := false |}
      (qs "/out/a.html") (qs "file:///notes/") []
      (stop (preparedExporter stubServices 3 []))
    = Returned false e' []
    /\ ((false = true
         /\ calls e'
            = calls (stop (preparedExporter stubServices 3 []))
              ++ [CallDoExportHtml; CallSaveContent;
                  CallWriteHtmlFile (qs "/out/a.html")]
         /\ contentReadyConnection e' = None)
        \/ (false = false
            /\ calls e'
               = calls (stop (preparedExporter stubServices 3 []))
                 ++ [CallDoExportHtml; CallSaveContent]
            /\ (contentReadyConnection e' = None \/ m_askedToStop e' = true))).
Proof.
  eexists. split; [reflexivity|].
  apply (doExportHtml_true_iff_written
           {| m_embedStyles := true; m_completePage := true; m_embedImages := true;
              m_useMimeHtmlFormat := false; m_addOutlinePanel := false |}
           (qs "/out/a.html") (qs "file:///notes/") []
           (stop (preparedExporter stubServices 3 [])) false _ []).
  reflexivity.
Defined.

(** The theorem of X2: the content arrives, but [stop] was called
    before. *)
Lemma doExportHtml_stop_pending_witness :
  exists e' : Exporter,
    doExportHtml
      {| m_embedStyles := true; m_completePage := true; m_embedImages := true;
         m_useMimeHtmlFormat := false; m_addOutlinePanel := false |}
      (qs "/out/a.html") (qs "file:///notes/")
      ([EvContentReady [] [] (qs "<p>hi</p>")] :: [])
      (stop (preparedExporter stubServices 3 []))
    = Returned false e' []
    /\ calls e'
       = calls (stop (preparedExporter stubServices 3 []))
         ++ [CallDoExportHtml; CallSaveContent].
Proof.
  apply (doExportHtml_stop_pending
           {| m_embedStyles := true; m_completePage := true; m_embedImages := true;
              m_useMimeHtmlFormat := false; m_addOutlinePanel := false |}
           (qs "/out/a.html") (qs "file:///notes/")
           [[EvContentReady [] [] (qs "<p>hi</p>")]]
           (stop (preparedExporter stubServices 3 []))).
  reflexivity.
Defined.

(** The theorem of X3: one wait without content, then the content,
    followed by a second [contentReady] with another body. *)
Lemma doExportHtml_success_witness :
  exists e' : Exporter,
    doExportHtml
      {| m_embedStyles := true; m_completePage := true; m_embedImages := true;
         m_useMimeHtmlFormat := false; m_addOutlinePanel := false |}
      (qs "/out/a.html") (qs "file:///notes/")
      ([[]] ++ ([] ++ EvContentReady [] (qs "p{}") (qs "<p>hi</p>")
                      :: [EvContentReady [] [] (qs "<p>late</p>")]) :: [])
      (preparedExporter stubServices 3 [])
    = Returned true e' []
    /\ calls e'
       = calls (preparedExporter stubServices 3 [])
         ++ [CallDoExportHtml; CallSaveContent; CallWriteHtmlFile (qs "/out/a.html")]
    /\ world e'
       = world (snd (writeHtmlFile (qs "/out/a.html") (qs "file:///notes/") []
                       (qs "p{}") (qs "<p>hi</p>") true true true
                       (preparedExporter stubServices 3 []))).
Proof.
  apply (doExportHtml_success
           {| m_embedStyles := true; m_completePage := true; m_embedImages := true;
              m_useMimeHtmlFormat := false; m_addOutlinePanel := false |}
           (qs "/out/a.html") (qs "file:///notes/") [[]] [] [] (qs "p{}")
           (qs "<p>hi</p>") [EvContentReady [] [] (qs "<p>late</p>")] []
           (preparedExporter stubServices 3 [])).
  - reflexivity.
  - intros b [<-|[]]. split; [intros []|intros ev []].
  - intros [].
  - intros ev [].
  - reflexivity.
Defined.

(** The theorem of X4: only the load signal ever arrives. *)
Lemma doExport_blocks_without_signals_witness :
  doExport {| m_targetFormat := HTML; m_htmlOption := None |}
    {| isMarkdown := true; getContentPath := qs "/notes/a.md";
       getFilePath := qs "/notes/a.md"; read := qs "# a" |}
    (qs "/out/a.html") [[EvLoadFinished]; []; [EvLoadFinished]]
    (preparedExporter stubServices 0 [])
  = Blocked.
Proof.
  apply (doExport_blocks_without_signals
           {| m_targetFormat := HTML; m_htmlOption := None |}
           {| isMarkdown := true; getContentPath := qs "/notes/a.md";
              getFilePath := qs "/notes/a.md"; read := qs "# a" |}
           (qs "/out/a.html") [[EvLoadFinished]; []; [EvLoadFinished]]
           (preparedExporter stubServices 0 [])).
  - intros b [<-|[<-|[<-|[]]]]; intros Hin; simpl in Hin;
      repeat (destruct Hin as [Hin|Hin]; [discriminate Hin|]); exact Hin.
  - simpl. intros [_ [D|[D|[]]]]; discriminate D.
Defined.

(** The theorem of X5 at the start of an export. *)
Lemma started_never_failed_witness :
  isWebViewFailed (deliverAll [EvLoadFinished; EvWorkFinished; EvStop]
                     (preparedExporter stubServices 0 [])) = false
  /\ (isWebViewReady (deliverAll [EvLoadFinished; EvWorkFinished; EvStop]
                        (preparedExporter stubServices 0 [])) = true ->
      isWebViewReady
        (deliverAll [EvWorkFinished]
           (deliverAll [EvLoadFinished; EvWorkFinished; EvStop]
              (preparedExporter stubServices 0 []))) = true).
Proof.
  apply (started_never_failed (preparedExporter stubServices 0 [])
           [EvLoadFinished; EvWorkFinished; EvStop] [EvWorkFinished]).
  reflexivity.
Defined.

(** The theorem of X6: load, work, the settle delay, the content. *)
Lemma doExport_success_witness :
  exists e' : Exporter,
    doExport
      {| m_targetFormat := HTML;
         m_htmlOption :=
           Some {| m_embedStyles := true; m_completePage := true;
                   m_embedImages := true; m_useMimeHtmlFormat := false;
                   m_addOutlinePanel := false |} |}
      {| isMarkdown := true; getContentPath := qs "/notes/a.md";
         getFilePath := qs "/notes/a.md"; read := qs "# a" |}
      (qs "/out/a.html")
      ([[EvLoadFinished]] ++ [EvWorkFinished] :: []
         :: [] ++ ([] ++ EvContentReady [] (qs "p{}") (imgTag (qs "img/x.png")) :: [])
         :: [])
      (preparedExporter stubServices 0 [])
    = Returned true e' []
    /\ m_exportOngoing e' = false
    /\ calls e'
       = calls (preparedExporter stubServices 0 [])
         ++ [CallSetHtml (m_htmlTemplate (preparedExporter stubServices 0 []))
               (pathToUrl (qs "/notes/a.md"));
             CallSetText (qs "# a");
             CallDoExportHtml; CallSaveContent; CallWriteHtmlFile (qs "/out/a.html")]
    /\ world e'
       = world (snd (writeHtmlFile (qs "/out/a.html") (pathToUrl (qs "/notes/a.md"))
                       [] (qs "p{}") (imgTag (qs "img/x.png")) true true true
                       (preparedExporter stubServices 0 []))).
Proof.
  apply (doExport_success
           {| m_embedStyles := true; m_completePage := true; m_embedImages := true;
              m_useMimeHtmlFormat := false; m_addOutlinePanel := false |}
           {| isMarkdown := true; getContentPath := qs "/notes/a.md";
              getFilePath := qs "/notes/a.md"; read := qs "# a" |}
           (qs "/out/a.html") [[EvLoadFinished]] [EvWorkFinished] [] [] []
           [] (qs "p{}") (imgTag (qs "img/x.png")) [] []
           (preparedExporter stubServices 0 [])).
  - reflexivity.
  - intros b [<-|[]] [D|[]]. discriminate D.
  - simpl. intros [_ [D|[]]]. discriminate D.
  - intros [D|[]]. discriminate D.
  - simpl. left. reflexivity.
  - simpl. right. left. reflexivity.
  - intros [].
  - intros b [].
  - intros [].
  - intros ev [].
  - reflexivity.
Defined.

(** The theorem of X7 on an export that is stopped during the settle
    delay: [doExportHtml] is entered with [stop] pending and no event to
    come. *)
Lemma doExport_true_iff_written_witness :
  exists e' : Exporter,
    doExport
      {| m_targetFormat := HTML;
         m_htmlOption :=
           Some {| m_embedStyles := true; m_completePage := true;
                   m_embedImages := true; m_useMimeHtmlFormat := false;
                   m_addOutlinePanel := false |} |}
      {| isMarkdown := true; getContentPath := qs "/notes/a.md";
         getFilePath := qs "/notes/a.md"; read := qs "# a" |}
      (qs "/out/a.html") [[EvLoadFinished; EvWorkFinished]; [EvStop]]
      (preparedExporter stubServices 0 [])
    = Returned false e' []
    /\ m_exportOngoing e' = false
    /\ exists added : list Call,
         calls e' = calls (preparedExporter stubServices 0 []) ++ added
         /\ filter isWriteCall added = [].
Proof.
  eexists. split; [vm_compute; reflexivity|].
  apply (doExport_true_iff_written
           {| m_targetFormat := HTML;
              m_htmlOption :=
                Some {| m_embedStyles := true; m_completePage := true;
                        m_embedImages := true; m_useMimeHtmlFormat := false;
                        m_addOutlinePanel := false |} |}
           {| isMarkdown := true; getContentPath := qs "/notes/a.md";
              getFilePath := qs "/notes/a.md"; read := qs "# a" |}
           (qs "/out/a.html") [[EvLoadFinished; EvWorkFinished]; [EvStop]]
           (preparedExporter stubServices 0 []) false _ []).
  - reflexivity.
  - vm_compute. reflexivity.
Defined.

(** The theorem of X9 on a tag with attributes on both sides. *)
Lemma img_match_has_source_witness :
  isEmpty (qs "img/x.png") = false
  /\ (exists rest : QString,
         skipn (Z.to_nat 3)
           (qs "<p>" ++ imgText (qs "alt='x' ") (qs "img/x.png") (qs " width=3")
            ++ qs "</p>")
         = imgText (qs "alt='x' ") (qs "img/x.png") (qs " width=3") ++ rest)
  /\ 37 = size (imgText (qs "alt='x' ") (qs "img/x.png") (qs " width=3"))
  /\ forallb notGt (qs "alt='x' ") = true
  /\ forallb notQuote (qs "img/x.png") = true
  /\ forallb notGt (qs " width=3") = true.
Proof.
  apply (img_match_has_source
           (qs "<p>" ++ imgText (qs "alt='x' ") (qs "img/x.png") (qs " width=3")
            ++ qs "</p>")
           0 3
           {| matchedLength := 37;
              capturedTexts :=
                [imgText (qs "alt='x' ") (qs "img/x.png") (qs " width=3");
                 qs "alt='x' "; qs "img/x.png"; qs " width=3"] |}).
  - vm_compute. split; discriminate.
  - vm_compute. reflexivity.
  - discriminate.
Defined.

(** The theorem of X10 on a path with one slash. *)
Lemma getResourceRelativePath_assertion_witness :
  getResourceRelativePath_asserts (qs "sub" ++ qs "/" ++ qs "x.png") = true
  /\ getResourceRelativePath (qs "sub" ++ qs "/" ++ qs "x.png")
     = qs "." ++ qs "sub" ++ qs "/" ++ qs "x.png".
Proof.
  apply (proj2 (getResourceRelativePath_assertion (qs "/x.png") (qs "sub") (qs "x.png")));
    reflexivity.
Defined.

(** The theorem of X12 on a rule and a tag, with nothing reachable. *)
Lemma failing_resources_keep_text_witness :
  @embedStyleResources offlineServices
    (cssUrl (qs "file:///a/b.png") ++ qs ";" ++ imgTag (qs "img/x.png")) []
  = (cssUrl (qs "file:///a/b.png") ++ qs ";" ++ imgTag (qs "img/x.png"), false)
  /\ @embedBodyResources offlineServices (qs "file:///notes/")
       (cssUrl (qs "file:///a/b.png") ++ qs ";" ++ imgTag (qs "img/x.png")) []
     = (cssUrl (qs "file:///a/b.png") ++ qs ";" ++ imgTag (qs "img/x.png"), false)
  /\ fst (@fixBodyResources offlineServices (qs "file:///notes/") (qs "/out/n_files")
            (cssUrl (qs "file:///a/b.png") ++ qs ";" ++ imgTag (qs "img/x.png")) [])
     = (cssUrl (qs "file:///a/b.png") ++ qs ";" ++ imgTag (qs "img/x.png"), false).
Proof.
  apply (@failing_resources_keep_text offlineServices (qs "file:///notes/")
           (qs "/out/n_files")
           (cssUrl (qs "file:///a/b.png") ++ qs ";" ++ imgTag (qs "img/x.png")) []).
  - reflexivity.
  - reflexivity.
Defined.

(** The theorem of X13 in folder mode. *)
Lemma writeHtmlFile_empty_baseUrl_witness :
  writeHtmlFile (qs "/out/n.html") [] [] (qs "p{}") (imgTag (qs "img/x.png"))
    true true false (preparedExporter stubServices 0 [])
  = writeHtmlFile (qs "/out/n.html") [] [] (qs "p{}") (imgTag (qs "img/x.png"))
      true false false (preparedExporter stubServices 0 []).
Proof.
  apply (writeHtmlFile_empty_baseUrl (qs "/out/n.html") [] [] (qs "p{}")
           (imgTag (qs "img/x.png")) true true false
           (preparedExporter stubServices 0 [])).
  reflexivity.
Defined.

End ConcreteRuns.
